(** * Failure-prediction engine, sensor polling and scheduler
    of the inspection backend ([app/services/ai_prediction_service.py],
    [app/tasks/sensor_polling.py], [app/scheduler.py]).

    Numeric model.  Sensor channels arrive as [Decimal] values in
    [SensorDataCreate]; they are modelled as exact rationals [Q].  The
    engine works on [float]s: [float(Decimal)], [int / int], and every
    [float] operation ([sum / len], [* 1.2], [* 0.8], [+ variance]) return
    the IEEE 754 double nearest to the exact result, ties to even, which is
    [b64] below (the values of the engine are far from overflow, which is
    not modelled).  A comparison of a [float] with an [int] or a [float] is
    exact.  A two-decimal [Decimal] produced by [Decimal(f'{x:.2f}')] is
    modelled as a number of hundredths ([Z]), obtained by [round2] from the
    exact value of the double [x] (Python formats the exact binary value,
    round to nearest, ties to even). *)

From Stdlib Require Import ZArith QArith Qround Qminmax Qabs Qpower List String Bool Lia.
Import ListNotations.
Open Scope Z_scope.

(** ** Sensor readings ([SensorDataCreate]) *)

Record sensor_data := mk_sensor_data {
  pressure : option Q;
  temperature : option Q;
  wall_thickness : option Q;
  corrosion_rate : option Q;
  vibration : option Q;
  flow_rate : option Q;
  notes : option string
}.

(** String levels ['low'], ['medium'], ['high'], ['critical'] used for the
    consequence of failure and for the priority ([ConsequenceLevel],
    [PriorityLevel]). *)
Inductive level := Low | Medium | High | Critical.

Definition level_eqb (a b : level) : bool :=
  match a, b with
  | Low, Low | Medium, Medium | High, High | Critical, Critical => true
  | _, _ => false
  end.

(** [Decimal(f'{x:.2f}')]: the value in hundredths. *)
Definition round2 (x : Q) : Z :=
  let y := (x * inject_Z 100)%Q in
  let fl := Qfloor y in
  let fr := (y - inject_Z fl)%Q in
  if Qeq_bool fr (1 # 2) then (if Z.even fl then fl else fl + 1)
  else if Qle_bool fr (1 # 2) then fl else fl + 1.

(** A two-decimal [Decimal] as the rational it denotes; [float(pof)] is
    [b64 (of_cents pof)]. *)
Definition of_cents (c : Z) : Q := (inject_Z c / inject_Z 100)%Q.

(** ** IEEE 754 binary64 ([float])

    [rne y] is the integer nearest to [y], ties to even.  [mag x] is the
    exponent [e] with [2^e <= |x| < 2^(e+1)] (for [x <> 0]), computed from
    the bit lengths of numerator and denominator.  A double is [m * 2^q] with
    [|m| < 2^53] and [q >= -1074]; [b64 x] rounds [x] to the nearest one,
    ties to even, on the grid [2^(ulp_exp x)] of its binade. *)
Definition rne (y : Q) : Z :=
  let fl := Qfloor y in
  let fr := (y - inject_Z fl)%Q in
  if Qeq_bool fr (1 # 2) then (if Z.even fl then fl else fl + 1)
  else if Qle_bool fr (1 # 2) then fl else fl + 1.

Definition mag (x : Q) : Z :=
  let e := Z.log2 (Z.abs (Qnum x)) - Z.log2 (Zpos (Qden x)) in
  if Qle_bool (2 ^ e)%Q (Qabs x) then e else e - 1.

Definition ulp_exp (x : Q) : Z := Z.max (mag x - 52) (-1074).

Definition b64 (x : Q) : Q :=
  let q := ulp_exp x in
  (inject_Z (rne (x * 2 ^ (- q))) * 2 ^ q)%Q.
Arguments b64 : simpl never.

(** Python [float(x) >= t] and [float(x) <= t]: the value and the threshold
    (an [int], or a [float] literal such as [0.3]) as doubles, compared
    exactly. *)
Definition ge (x t : Q) : bool := Qle_bool (b64 t) (b64 x).
Definition le (x t : Q) : bool := Qle_bool (b64 x) (b64 t).

(** ** [MockAIPredictionEngine.calculate_pof] *)

(** [risk_scores.append(..)] when the channel is not [None]. *)
Definition push (o : option Q) (score : Q -> Z) (acc : list Z) : list Z :=
  match o with
  | Some v => acc ++ [score v]
  | None => acc
  end.

Definition pressure_score (v : Q) : Z :=
  if ge v 20 then 90 else if ge v 15 then 60 else if ge v 10 then 30 else 10.

Definition temperature_score (v : Q) : Z :=
  if ge v 120 then 85 else if ge v 100 then 55 else if ge v 80 then 25 else 5.

Definition wall_thickness_score (v : Q) : Z :=
  if le v 5 then 95 else if le v 7 then 65 else if le v 10 then 35 else 15.

Definition corrosion_rate_score (v : Q) : Z :=
  if ge v (5 # 10) then 88 else if ge v (3 # 10) then 58
  else if ge v (1 # 10) then 28 else 8.

Definition vibration_score (v : Q) : Z :=
  if ge v (70 # 10) then 80 else if ge v (45 # 10) then 50
  else if ge v (28 # 10) then 20 else 5.

Definition flow_rate_score (v : Q) : Z :=
  if ge v 100 then 75 else if ge v 80 then 45 else if ge v 50 then 15 else 5.

Definition risk_scores (sd : sensor_data) : list Z :=
  let r := [] in
  let r := push (pressure sd) pressure_score r in
  let r := push (temperature sd) temperature_score r in
  let r := push (wall_thickness sd) wall_thickness_score r in
  let r := push (corrosion_rate sd) corrosion_rate_score r in
  let r := push (vibration sd) vibration_score r in
  push (flow_rate sd) flow_rate_score r.

Definition sum_list (l : list Z) : Z := fold_left Z.add l 0.

Definition calculate_pof (sd : sensor_data) : Z :=
  let rs := risk_scores sd in
  match rs with
  | [] => 1500
  | _ =>
      let avg_pof := b64 (inject_Z (sum_list rs) / inject_Z (Z.of_nat (List.length rs))) in
      let critical_count := List.length (filter (fun s => 75 <=? s) rs) in
      let avg_pof :=
        if (3 <=? critical_count)%nat then Qmin 95 (b64 (avg_pof * b64 (12 # 10)))
        else if (2 <=? critical_count)%nat then Qmin 90 (b64 (avg_pof * b64 (11 # 10)))
        else avg_pof in
      round2 avg_pof
  end.

(** ** [MockAIPredictionEngine.calculate_cof] *)

(** Python truthiness of an optional [Decimal]: [None] and zero are false. *)
Definition truthy (o : option Q) : bool :=
  match o with
  | Some v => negb (Qeq_bool v 0)
  | None => false
  end.

Definition opt_test (o : option Q) (t : Q -> bool) : bool :=
  match o with Some v => t v | None => false end.

Definition calculate_cof (sd : sensor_data) (pof : Z) : level :=
  let s := 0 in
  let s := if truthy (pressure sd) && opt_test (pressure sd) (fun v => ge v 20)
           then s + 3 else s in
  let s := if truthy (temperature sd) && opt_test (temperature sd) (fun v => ge v 120)
           then s + 3 else s in
  let s := if truthy (wall_thickness sd) && opt_test (wall_thickness sd) (fun v => le v 5)
           then s + 4 else s in
  let s := if truthy (corrosion_rate sd) && opt_test (corrosion_rate sd) (fun v => ge v (5 # 10))
           then s + 3 else s in
  let s := if ge (of_cents pof) 80 then s + 2
           else if ge (of_cents pof) 60 then s + 1 else s in
  if 8 <=? s then Critical
  else if 5 <=? s then High
  else if 3 <=? s then Medium
  else Low.

(** ** [MockAIPredictionEngine.calculate_confidence]; [variance] is the value
    drawn by [random.uniform(-5, 5)]. *)

Definition is_some {A} (o : option A) : bool :=
  match o with Some _ => true | None => false end.

Definition calculate_confidence (sd : sensor_data) (variance : Q) : Z :=
  let total_params := 6%Z in
  let available_params :=
    List.length (filter (fun b => b)
      [is_some (pressure sd); is_some (temperature sd); is_some (wall_thickness sd);
       is_some (corrosion_rate sd); is_some (vibration sd); is_some (flow_rate sd)]) in
  let base_confidence :=
    b64 (b64 (inject_Z (Z.of_nat available_params) / inject_Z total_params) * 100) in
  let base_confidence :=
    if negb (is_some (wall_thickness sd)) || negb (is_some (corrosion_rate sd))
    then b64 (base_confidence * b64 (8 # 10)) else base_confidence in
  let final_confidence := Qmax 30 (Qmin 95 (b64 (base_confidence + variance))) in
  round2 final_confidence.

(** ** [MockAIPredictionEngine.generate_recommendation] *)

Definition generate_recommendation (pof : Z) (cof : level) : string * level :=
  let pof_val := of_cents pof in
  if level_eqb cof Critical || ge pof_val 80 then
    ("IMMEDIATE ACTION REQUIRED: Schedule emergency inspection and shutdown if necessary. Inspect asset integrity immediately."%string, Critical)
  else if level_eqb cof High || ge pof_val 60 then
    ("Schedule urgent inspection within 24-48 hours. Monitor parameters continuously. Prepare maintenance plan."%string, High)
  else if level_eqb cof Medium || ge pof_val 40 then
    ("Plan inspection within 1-2 weeks. Increase monitoring frequency. Review maintenance schedule."%string, Medium)
  else
    ("Continue routine monitoring. Schedule inspection as per normal maintenance plan. No immediate action required."%string, Low).

(** [cof_weights] of [predict]. *)
Definition cof_weights (l : level) : Z :=
  match l with Low => 1 | Medium => 2 | High => 3 | Critical => 4 end.

(** ** The engine's rules as the specification states them

    These definitions follow the wording of the specification (section 4.1)
    and are compared with the definitions above, which follow the source.
    The comparisons and the arithmetic are exact; the [_with fl] forms
    apply [fl] to each value, threshold and operation result, so that
    [fl := b64] gives the same rule evaluated in [float]s. *)

Definition at_least (v t : Q) : bool := Qle_bool t v.
Definition at_most (v t : Q) : bool := Qle_bool v t.

(** A value with at most four decimals, the scale of the columns the
    readings are stored in ([Numeric(10, 2)], [Numeric(10, 4)]). *)
Definition grid4 (o : option Q) : Prop :=
  match o with Some v => exists k : Z, (v == k # 10000)%Q | None => True end.

(** Consequence of failure: points for critical channels, then for the
    probability, then the level. *)
Definition spec_cof (sd : sensor_data) (pof : Z) : level :=
  let pts (o : option Q) (t : Q -> bool) (n : Z) :=
    match o with Some v => if t v then n else 0 | None => 0 end in
  let total :=
    pts (pressure sd) (fun v => at_least v 20) 3
    + pts (temperature sd) (fun v => at_least v 120) 3
    + pts (wall_thickness sd) (fun v => at_most v 5) 4
    + pts (corrosion_rate sd) (fun v => at_least v (5 # 10)) 3
    + (if 8000 <=? pof then 2 else if 6000 <=? pof then 1 else 0) in
  if 8 <=? total then Critical
  else if 5 <=? total then High
  else if 3 <=? total then Medium
  else Low.

(** One row of the threshold table: the channel, whether lower is worse,
    its safe / warning / critical boundaries and its four bucket scores. *)
Record threshold_row := mk_row {
  row_channel : sensor_data -> option Q;
  row_inverse : bool;
  row_safe : Q; row_warning : Q; row_critical : Q;
  score_critical : Z; score_warning : Z; score_safe : Z; score_else : Z
}.

Definition threshold_table : list threshold_row := [
  mk_row pressure false 10 15 20 90 60 30 10;
  mk_row temperature false 80 100 120 85 55 25 5;
  mk_row wall_thickness true 10 7 5 95 65 35 15;
  mk_row corrosion_rate false (1 # 10) (3 # 10) (5 # 10) 88 58 28 8;
  mk_row vibration false (28 # 10) (45 # 10) (70 # 10) 80 50 20 5;
  mk_row flow_rate false 50 80 100 75 45 15 5 ].

Definition bucket_with (fl : Q -> Q) (r : threshold_row) (v : Q) : Z :=
  let beyond (t : Q) :=
    if row_inverse r then at_most (fl v) (fl t) else at_least (fl v) (fl t) in
  if beyond (row_critical r) then score_critical r
  else if beyond (row_warning r) then score_warning r
  else if beyond (row_safe r) then score_safe r
  else score_else r.

Definition present_scores_with (fl : Q -> Q) (sd : sensor_data) : list Z :=
  List.concat (map (fun r => match row_channel r sd with
                        | Some v => [bucket_with fl r v]
                        | None => []
                        end) threshold_table).

Definition channels_present (sd : sensor_data) : nat :=
  List.length (filter (fun r => is_some (row_channel r sd)) threshold_table).

(** Probability of failure for a reading with at least one channel. *)
Definition spec_pof_with (fl : Q -> Q) (sd : sensor_data) : Z :=
  let sc := present_scores_with fl sd in
  let avg := fl (inject_Z (sum_list sc) / inject_Z (Z.of_nat (List.length sc)))%Q in
  let n75 := List.length (filter (fun s => 75 <=? s) sc) in
  round2 (if (3 <=? n75)%nat then Qmin 95 (fl (avg * fl (12 # 10))%Q)
          else if (n75 =? 2)%nat then Qmin 90 (fl (avg * fl (11 # 10))%Q)
          else avg).

Definition spec_pof (sd : sensor_data) : Z := spec_pof_with (fun x => x) sd.
Definition spec_pof_float (sd : sensor_data) : Z := spec_pof_with b64 sd.

(** Confidence before the jitter. *)
Definition spec_confidence_base_with (fl : Q -> Q) (sd : sensor_data) : Q :=
  let base := fl (fl (inject_Z (Z.of_nat (channels_present sd)) / 6) * 100)%Q in
  match wall_thickness sd, corrosion_rate sd with
  | Some _, Some _ => base
  | _, _ => fl (base * fl (8 # 10))%Q
  end.

Definition spec_confidence_base (sd : sensor_data) : Q :=
  spec_confidence_base_with (fun x => x) sd.
Definition spec_confidence_base_float (sd : sensor_data) : Q :=
  spec_confidence_base_with b64 sd.

Definition clamp (lo hi x : Q) : Q :=
  if Qle_bool x lo then lo else if Qle_bool hi x then hi else x.

(** Priority from the risk matrix, with [pof] in hundredths. *)
Definition spec_priority (pof : Z) (cof : level) : level :=
  match cof with
  | Critical => Critical
  | _ =>
    if 8000 <=? pof then Critical
    else if level_eqb cof High || (6000 <=? pof) then High
    else if level_eqb cof Medium || (4000 <=? pof) then Medium
    else Low
  end.

(** ** Persistence: the SQLAlchemy session of [predict] and of the polling tasks

    [SessionLocal] is [sessionmaker(autocommit=False, autoflush=False)]:
    rows given to [db.add] stay in the session until [flush]; a flush writes
    them inside the open transaction; [commit] flushes and then commits.
    When a flush fails the transaction is rolled back and the session refuses
    every further query, flush and commit until [rollback()] is called
    ([PendingRollbackError]); [close()] discards the uncommitted work. *)

Inductive inspection_status := NotStarted | InProgress | Completed | OnHold | Cancelled.

Definition status_eqb (a b : inspection_status) : bool :=
  match a, b with
  | NotStarted, NotStarted | InProgress, InProgress | Completed, Completed
  | OnHold, OnHold | Cancelled, Cancelled => true
  | _, _ => false
  end.

Record inspection := mk_inspection {
  ins_id : nat;
  ins_status : inspection_status;
  primary_inspector_id : option nat;
  asset_id : nat
}.

(** A row of [sensor_data]. *)
Record sensor_row := mk_sensor_row {
  sd_id : nat;
  sd_inspection_id : nat;
  sd_data : sensor_data;
  recorded_by_id : nat
}.

(** A row of [failure_predictions]. *)
Record prediction_row := mk_prediction_row {
  sensor_data_id : nat;
  fp_inspection_id : nat;
  probability_of_failure : Z;
  consequence_of_failure : level;
  confidence_score : Z;
  risk_score : Z;
  recommended_action : string;
  priority : level;
  model_version : string
}.

Inductive row := RSensor (r : sensor_row) | RPrediction (p : prediction_row).

Inductive log_level := LInfo | LWarning | LError.

(** Exceptions: the storage error of a failed flush, the
    [PendingRollbackError] of a session that needs a rollback, the
    [HTTPException] 404 of [generate_ai_assessment], and an exception of the
    sensor source. *)
Inductive error := StorageError | PendingRollback | NotFound | SensorError.

(** Database, session and log.  [rejects] is the database's verdict on an
    insert (a violated constraint, a lost connection). *)
Record st := mk_st {
  inspections : list inspection;
  committed : list row;
  rejects : row -> bool;
  next_id : nat;
  flushed : list row;
  added : list row;
  needs_rollback : bool;
  logs : list (log_level * string)
}.

(** Predictions of inspection [i] among the stored rows. *)
Definition predictions_for (i : nat) (l : list row) : nat :=
  List.length (filter (fun r => match r with
                                | RPrediction p => Nat.eqb (fp_inspection_id p) i
                                | RSensor _ => false
                                end) l).

Definition find_inspection (id : nat) (l : list inspection) : option inspection :=
  find (fun i => Nat.eqb (ins_id i) id) l.

Inductive result (A : Type) := Ok (a : A) | Err (e : error).
Arguments Ok {A} a.
Arguments Err {A} e.

Definition M (A : Type) := st -> result A * st.

Definition ret {A} (a : A) : M A := fun s => (Ok a, s).
Definition throw {A} (e : error) : M A := fun s => (Err e, s).
Definition bind {A B} (m : M A) (k : A -> M B) : M B :=
  fun s => match m s with
           | (Ok a, s') => k a s'
           | (Err e, s') => (Err e, s')
           end.
(** [try: m  except Exception as e: h e] *)
Definition try_catch {A} (m : M A) (h : error -> M A) : M A :=
  fun s => match m s with
           | (Err e, s') => h e s'
           | r => r
           end.

Notation "x <- m ;; k" := (bind m (fun x => k))
  (at level 61, m at next level, right associativity).
Notation "m ;;; k" := (bind m (fun _ => k))
  (at level 61, right associativity).

Definition log (lv : log_level) (msg : string) : M unit :=
  fun s => (Ok tt, mk_st (inspections s) (committed s) (rejects s) (next_id s)
                         (flushed s) (added s) (needs_rollback s) (logs s ++ [(lv, msg)])).

(** [SessionLocal()] *)
Definition db_open : M unit :=
  fun s => (Ok tt, mk_st (inspections s) (committed s) (rejects s) (next_id s)
                         [] [] false (logs s)).

(** [db.close()]: uncommitted work is discarded. *)
Definition db_close : M unit := db_open.

Definition db_query_inspection (id : nat) : M (option inspection) :=
  fun s => if needs_rollback s then (Err PendingRollback, s)
           else (Ok (find_inspection id (inspections s)), s).

Definition db_query_in_progress : M (list inspection) :=
  fun s => if needs_rollback s then (Err PendingRollback, s)
           else (Ok (filter (fun i => status_eqb (ins_status i) InProgress)
                           (inspections s)), s).

Definition db_add (r : row) : M unit :=
  fun s => (Ok tt, mk_st (inspections s) (committed s) (rejects s) (next_id s)
                         (flushed s) (added s ++ [r]) (needs_rollback s) (logs s)).

(** The primary key the insert of the next row receives from its sequence. *)
Definition db_next_id : M nat :=
  fun s => (Ok (next_id s), mk_st (inspections s) (committed s) (rejects s) (S (next_id s))
                                  (flushed s) (added s) (needs_rollback s) (logs s)).

Definition db_flush : M unit :=
  fun s =>
    if needs_rollback s then (Err PendingRollback, s)
    else if existsb (rejects s) (added s) then
      (Err StorageError, mk_st (inspections s) (committed s) (rejects s) (next_id s)
                               [] [] true (logs s))
    else
      (Ok tt, mk_st (inspections s) (committed s) (rejects s) (next_id s)
                    (flushed s ++ added s) [] false (logs s)).

Definition db_commit : M unit :=
  db_flush ;;;
  (fun s => (Ok tt, mk_st (inspections s) (committed s ++ flushed s) (rejects s) (next_id s)
                          [] (added s) (needs_rollback s) (logs s))).

Definition db_refresh : M unit :=
  fun s => if needs_rollback s then (Err PendingRollback, s) else (Ok tt, s).

(** ** [MockAIPredictionEngine.predict]; [variance] is the draw of
    [random.uniform] made by [calculate_confidence]. *)
Definition predict (inspection_id : nat) (sd : sensor_data) (user_id : nat)
    (variance : Q) : M (sensor_row * prediction_row) :=
  log LInfo "Generating AI prediction" ;;;
  sid <- db_next_id ;;
  let sensor_db := mk_sensor_row sid inspection_id sd user_id in
  db_add (RSensor sensor_db) ;;;
  db_flush ;;;
  let pof := calculate_pof sd in
  let cof := calculate_cof sd pof in
  let confidence := calculate_confidence sd variance in
  let '(recommended_action, prio) := generate_recommendation pof cof in
  let risk := round2 (b64 (b64 (of_cents pof) * inject_Z (cof_weights cof))) in
  let prediction_db :=
    mk_prediction_row sid inspection_id pof cof confidence risk
                      recommended_action prio "mock_v1.0" in
  db_add (RPrediction prediction_db) ;;;
  db_commit ;;;
  db_refresh ;;;
  db_refresh ;;;
  log LInfo "Prediction generated" ;;;
  ret (sensor_db, prediction_db).

(** [generate_ai_assessment] *)
Definition generate_ai_assessment (inspection_id : nat) (sd : sensor_data)
    (user_id : nat) (variance : Q) : M (sensor_row * prediction_row) :=
  o <- db_query_inspection inspection_id ;;
  match o with
  | None => throw NotFound
  | Some _ => predict inspection_id sd user_id variance
  end.

(** ** [app/tasks/sensor_polling.py]

    The sensor source ([simulate_sensor_data_for_inspection], random by
    design) is a parameter: [feed i] is the reading it yields for inspection
    [i], or [None] when it raises.  [jitter i] is the draw of
    [random.uniform(-5, 5)] made while scoring inspection [i]. *)

Definition sense (feed : nat -> option sensor_data) (i : nat) : M sensor_data :=
  match feed i with Some r => ret r | None => throw SensorError end.

(** [SensorDataCreate(pressure=..., ..., notes=...)] *)
Definition with_notes (r : sensor_data) (n : string) : sensor_data :=
  mk_sensor_data (pressure r) (temperature r) (wall_thickness r) (corrosion_rate r)
                 (vibration r) (flow_rate r) (Some n).

(** [inspection.primary_inspector_id or 1] *)
Definition recording_user (ins : inspection) : nat :=
  match primary_inspector_id ins with
  | Some (S u) => S u
  | _ => 1%nat
  end.

Fixpoint for_each {A} (l : list A) (f : A -> M unit) : M unit :=
  match l with
  | [] => ret tt
  | x :: l' => f x ;;; for_each l' f
  end.

(** Reading an attribute of a loaded instance ([inspection.id]).  A failed
    flush rolls the transaction back and expires the instances it loaded;
    the read is then a query, which the session refuses until [rollback()]
    ([PendingRollbackError]). *)
Definition db_attr : M unit :=
  fun s => if needs_rollback s then (Err PendingRollback, s) else (Ok tt, s).

(** The body of the [try] of one iteration of the loop. *)
Definition process_inspection (feed : nat -> option sensor_data) (jitter : nat -> Q)
    (ins : inspection) : M unit :=
  db_attr ;;;
  readings <- sense feed (ins_id ins) ;;
  let sd := with_notes readings "Automatic sensor reading" in
  res <- generate_ai_assessment (ins_id ins) sd (recording_user ins) (jitter (ins_id ins)) ;;
  log LInfo "Generated prediction" ;;;
  if level_eqb (priority (snd res)) Critical
  then log LWarning "CRITICAL CONDITION detected"
  else ret tt.

Definition poll_sensors_and_predict (feed : nat -> option sensor_data) (jitter : nat -> Q)
    : M unit :=
  db_open ;;;
  try_catch
    (l <- db_query_in_progress ;;
     log LInfo "Polling sensors" ;;;
     for_each l (fun ins =>
       try_catch (process_inspection feed jitter ins)
                 (fun _ => db_attr ;;; log LError "Failed to process inspection")) ;;;
     log LInfo "Sensor polling completed")
    (fun _ => log LError "Sensor polling task failed") ;;;
  db_close.

Definition trigger_sensor_poll_for_inspection (feed : nat -> option sensor_data)
    (jitter : nat -> Q) (inspection_id : nat)
    : M (option (sensor_row * prediction_row)) :=
  db_open ;;;
  res <- try_catch
    (o <- db_query_inspection inspection_id ;;
     match o with
     | None => log LError "Inspection not found" ;;; ret None
     | Some ins =>
       if negb (status_eqb (ins_status ins) InProgress) then
         log LWarning "Inspection is not in progress" ;;; ret None
       else
         readings <- sense feed (ins_id ins) ;;
         let sd := with_notes readings "Manual trigger" in
         p <- generate_ai_assessment (ins_id ins) sd (recording_user ins)
                                     (jitter (ins_id ins)) ;;
         log LInfo "Manual prediction generated" ;;;
         ret (Some p)
     end)
    (fun _ => log LError "Manual trigger failed" ;;; ret None) ;;
  db_close ;;;
  ret res.

(** ** [app/scheduler.py]: [SensorPollingScheduler]

    The worker thread runs [_run]; its program counter is one of
    [WCheck] ([while self.running:]), [WCycle] (one call of
    [poll_sensors_and_predict], whose exceptions are caught),
    [WSleepCheck] ([if self.running:]), [WSleep] ([time.sleep(self.interval)])
    and [WDone] (returned).  Each worker moves independently of the main
    thread; [stop] sets [running] to false and waits at most 5 seconds in
    [join], which is modelled by the free interleaving of worker steps:
    [stop] may return while its worker still sleeps. *)
Module Scheduler.

Inductive wpc := WCheck | WCycle | WSleepCheck | WSleep | WDone.

Record sched := mk_sched {
  running : bool;
  workers : list wpc;     (* every thread started so far, in order *)
  thread : option nat     (* [self.thread]: index of the last one *)
}.

(** [SensorPollingScheduler(interval)] *)
Definition init : sched := mk_sched false [] None.

Definition worker_next (running : bool) (pc : wpc) : wpc :=
  match pc with
  | WCheck => if running then WCycle else WDone
  | WCycle => WSleepCheck
  | WSleepCheck => if running then WSleep else WCheck
  | WSleep => WCheck
  | WDone => WDone
  end.

Definition start (s : sched) : sched * list (log_level * string) :=
  if running s then (s, [(LWarning, "Scheduler is already running"%string)])
  else (mk_sched true (workers s ++ [WCheck]) (Some (List.length (workers s))),
        [(LInfo, "Sensor polling scheduler thread started"%string)]).

Definition stop (s : sched) : sched * list (log_level * string) :=
  if negb (running s) then (s, [(LWarning, "Scheduler is not running"%string)])
  else (mk_sched false (workers s) (thread s),
        [(LInfo, "Stopping sensor polling scheduler..."%string);
         (LInfo, "Sensor polling scheduler stopped"%string)]).

Fixpoint set_nth {A} (i : nat) (x : A) (l : list A) : list A :=
  match l, i with
  | [], _ => []
  | _ :: l', O => x :: l'
  | y :: l', S i' => y :: set_nth i' x l'
  end.

(** One step of worker [i]. *)
Definition worker_step (i : nat) (s : sched) : sched :=
  match nth_error (workers s) i with
  | Some pc => mk_sched (running s) (set_nth i (worker_next (running s) pc) (workers s))
                        (thread s)
  | None => s
  end.

Inductive step : sched -> sched -> Prop :=
| step_start s : step s (fst (start s))
| step_stop s : step s (fst (stop s))
| step_worker s i pc :
    nth_error (workers s) i = Some pc -> pc <> WDone -> step s (worker_step i s).

Inductive reachable : sched -> Prop :=
| reach_init : reachable init
| reach_step s s' : reachable s -> step s s' -> reachable s'.

(** Threads still executing [_run]. *)
Definition live (s : sched) : nat :=
  List.length (filter (fun pc => match pc with WDone => false | _ => true end) (workers s)).

(** Threads inside a poll cycle. *)
Definition polling (s : sched) : nat :=
  List.length (filter (fun pc => match pc with WCycle => true | _ => false end) (workers s)).

End Scheduler.

(** ** [app/scheduler.py]: [start_scheduler] and [stop_scheduler]

    The module-level [_scheduler] holds the current instance; the instances
    [stop_scheduler] dropped are kept in [retired], since their threads may
    still run. *)
Module Global.

Record sys := mk_sys {
  current : option Scheduler.sched;
  retired : list Scheduler.sched
}.

Definition init : sys := mk_sys None [].

Definition start_scheduler (g : sys) : sys * list (log_level * string) :=
  match current g with
  | Some _ => (g, [(LWarning, "Scheduler already exists"%string)])
  | None =>
      let '(s, lg) := Scheduler.start Scheduler.init in
      (mk_sys (Some s) (retired g), lg)
  end.

Definition stop_scheduler (g : sys) : sys * list (log_level * string) :=
  match current g with
  | None => (g, [(LWarning, "No scheduler to stop"%string)])
  | Some s =>
      let '(s', lg) := Scheduler.stop s in
      (mk_sys None (s' :: retired g), lg)
  end.

Definition map_nth {A} (f : A -> A) (i : nat) (l : list A) : list A :=
  match nth_error l i with
  | Some x => Scheduler.set_nth i (f x) l
  | None => l
  end.

(** The calls of the module functions, and the steps of the threads of the
    current and of the retired instances. *)
Inductive step : sys -> sys -> Prop :=
| gstep_start g : step g (fst (start_scheduler g))
| gstep_stop g : step g (fst (stop_scheduler g))
| gstep_current g s i pc :
    current g = Some s -> nth_error (Scheduler.workers s) i = Some pc -> pc <> Scheduler.WDone ->
    step g (mk_sys (Some (Scheduler.worker_step i s)) (retired g))
| gstep_retired g k i :
    step g (mk_sys (current g) (map_nth (Scheduler.worker_step i) k (retired g))).

Inductive reachable : sys -> Prop :=
| greach_init : reachable init
| greach_step g g' : reachable g -> step g g' -> reachable g'.

End Global.

(** ** [app/utils/sensor_simulator.py]: [SensorSimulator]

    [random.uniform(a, b)] is [a + (b - a) * random.random()]; the values of
    [random.random()] and of [random.choices] are parameters.  Python
    evaluates it in [float]s; the simulator's values are modelled exactly,
    as the reals the [float] operations approximate. *)

(** The modes [random.choices(['normal', 'warning', 'critical'], ...)] draws. *)
Inductive sim_choice := ChooseNormal | ChooseWarning | ChooseCritical.

Definition choice_name (c : sim_choice) : string :=
  match c with
  | ChooseNormal => "normal" | ChooseWarning => "warning" | ChooseCritical => "critical"
  end.

(** The draws behind one [generate_reading] call. *)
Record draw := mk_draw {
  d_choice : sim_choice;   (* random mode only *)
  d_value : Q;             (* random() of the value's uniform *)
  d_variation : Q          (* random() of the variation's uniform (normal mode) *)
}.

Definition uniform (a b r : Q) : Q := (a + (b - a) * r)%Q.

(** [BASELINE_RANGES]: min and max of each parameter. *)
Definition baseline_range (p : string) : option (Q * Q) :=
  if String.eqb p "pressure" then Some (8%Q, 12%Q)
  else if String.eqb p "temperature" then Some (70%Q, 85%Q)
  else if String.eqb p "wall_thickness" then Some (9%Q, 12%Q)
  else if String.eqb p "corrosion_rate" then Some ((5 # 100), (15 # 100))
  else if String.eqb p "vibration" then Some ((15 # 10), 3%Q)
  else if String.eqb p "flow_rate" then Some (40%Q, 60%Q)
  else None.

Definition all_sensors : list string :=
  ["pressure"; "temperature"; "wall_thickness"; "corrosion_rate"; "vibration"; "flow_rate"]%string.

(** The [elif] chains of the warning and critical modes; [None] where no
    branch assigns [value]. *)
Definition warning_value (p : string) (r : Q) : option Q :=
  if String.eqb p "pressure" then Some (uniform 14 17 r)
  else if String.eqb p "temperature" then Some (uniform 95 105 r)
  else if String.eqb p "wall_thickness" then Some (uniform 7 (85 # 10) r)
  else if String.eqb p "corrosion_rate" then Some (uniform (25 # 100) (35 # 100) r)
  else if String.eqb p "vibration" then Some (uniform 4 (55 # 10) r)
  else if String.eqb p "flow_rate" then Some (uniform 75 85 r)
  else None.

Definition critical_value (p : string) (r : Q) : option Q :=
  if String.eqb p "pressure" then Some (uniform 20 25 r)
  else if String.eqb p "temperature" then Some (uniform 120 135 r)
  else if String.eqb p "wall_thickness" then Some (uniform 4 (55 # 10) r)
  else if String.eqb p "corrosion_rate" then Some (uniform (5 # 10) (7 # 10) r)
  else if String.eqb p "vibration" then Some (uniform 7 9 r)
  else if String.eqb p "flow_rate" then Some (uniform 100 120 r)
  else None.

(** [Decimal(f'{x:.Nf}')] with [scale = 10^N]: the value in units of
    [1/scale], rounded to nearest, ties to even. *)
Definition round_to (scale : positive) (x : Q) : Z :=
  let y := (x * inject_Z (Zpos scale))%Q in
  let fl := Qfloor y in
  let fr := (y - inject_Z fl)%Q in
  if Qeq_bool fr (1 # 2) then (if Z.even fl then fl else fl + 1)
  else if Qle_bool fr (1 # 2) then fl else fl + 1.

(** Four decimals for the corrosion rate, two for the others. *)
Definition format_value (p : string) (v : Q) : Q :=
  if String.eqb p "corrosion_rate" then (round_to 10000 v # 10000)%Q
  else (round_to 100 v # 100)%Q.

(** [generate_reading] in the mode [risk_mode]; [random_mode] is the result
    of its [else] branch. *)
Definition generate_reading_as (risk_mode p : string) (d : draw)
    (random_mode : option Q) : option Q :=
  match baseline_range p with
  | None => None
  | Some (mn, mx) =>
      if String.eqb risk_mode "normal" then
        let value := uniform mn mx (d_value d) in
        let variation := (uniform (-5 # 100) (5 # 100) (d_variation d) * value)%Q in
        Some (format_value p (value + variation))
      else if String.eqb risk_mode "warning" then
        option_map (format_value p) (warning_value p (d_value d))
      else if String.eqb risk_mode "critical" then
        option_map (format_value p) (critical_value p (d_value d))
      else random_mode
  end.

(** The [else] branch sets [self.risk_mode] to the drawn mode and calls
    [generate_reading] again; the drawn mode is one of the three others, so
    the inner call never reaches that branch. *)
Definition generate_reading (risk_mode p : string) (d : draw) : option Q :=
  generate_reading_as risk_mode p d
    (generate_reading_as (choice_name (d_choice d)) p d None).

(** The dictionaries the simulator returns, as the [SensorDataCreate] the
    polling tasks build from them with [.get]; [draws p] are the draws of
    parameter [p]. *)
Definition generate_full_reading (risk_mode : string) (draws : string -> draw)
    : sensor_data :=
  let g p := generate_reading risk_mode p (draws p) in
  mk_sensor_data (g "pressure"%string) (g "temperature"%string) (g "wall_thickness"%string)
                 (g "corrosion_rate"%string) (g "vibration"%string) (g "flow_rate"%string)
                 None.

(** [selected] is [random.sample(all_sensors, min(num_sensors, 6))]. *)
Definition generate_partial_reading (risk_mode : string) (selected : list string)
    (draws : string -> draw) : sensor_data :=
  let g p := if existsb (String.eqb p) selected then generate_reading risk_mode p (draws p)
             else None in
  mk_sensor_data (g "pressure"%string) (g "temperature"%string) (g "wall_thickness"%string)
                 (g "corrosion_rate"%string) (g "vibration"%string) (g "flow_rate"%string)
                 None.

(** [u] is [random.random()]; [selected] is the sample of
    [generate_partial_reading(random.randint(3, 5))]. *)
Definition simulate_sensor_data_for_inspection (mode : string) (u : Q)
    (selected : list string) (draws : string -> draw) : sensor_data :=
  if negb (Qle_bool (8 # 10) u) then generate_full_reading mode draws
  else generate_partial_reading mode selected draws.

(** ** [app/routers/inspections.py]: [poll_sensors_for_inspection]

    [inspection.status] is a member of the plain [enum.Enum]
    [InspectionStatus]; Python's [==] on a member and a [str] is false. *)
Inductive pyval := PyStr (s : string) | PyEnum (e : inspection_status).

Definition py_eq (a b : pyval) : bool :=
  match a, b with
  | PyStr x, PyStr y => String.eqb x y
  | PyEnum x, PyEnum y => status_eqb x y
  | _, _ => false
  end.

(** A response, or the status code of the [HTTPException] raised. *)
Inductive response (A : Type) := Respond (a : A) | HttpError (code : Z).
Arguments Respond {A} a.
Arguments HttpError {A} code.

(** The user [get_current_user] loads for the bearer token of the request
    ([app/auth/dependencies.py]); [None] when there is no token, when it
    does not verify or is not an access token, when its [sub] is missing or
    not an integer, or when no user has that id. *)
Record account := mk_account {
  acc_id : nat;
  acc_active : bool;
  acc_role : string
}.

(** [Depends(RoleChecker(allowed))]: 401 without a user, 403 for an
    inactive user ([get_current_user]) and for a role not in [allowed]. *)
Definition role_checker (allowed : list string) (caller : option account)
    : response account :=
  match caller with
  | None => HttpError 401
  | Some u =>
      if negb (acc_active u) then HttpError 403
      else if existsb (String.eqb (acc_role u)) allowed then Respond u
      else HttpError 403
  end.

Definition poll_roles : list string :=
  ["inspector"; "team_leader"; "engineer"; "admin"]%string.

(** [get_db] opens the request's session and closes it afterwards; the
    dependencies are resolved before the handler runs. *)
Definition poll_sensors_endpoint (feed : nat -> option sensor_data) (jitter : nat -> Q)
    (caller : option account) (inspection_id : nat)
    : M (response (sensor_row * prediction_row)) :=
  db_open ;;;
  match role_checker poll_roles caller with
  | HttpError code => db_close ;;; ret (HttpError code)
  | Respond _ =>
  o <- db_query_inspection inspection_id ;;
  resp <- match o with
          | None => ret (HttpError 404)
          | Some ins =>
              if negb (py_eq (PyEnum (ins_status ins)) (PyStr "in_progress")) then
                ret (HttpError 400)
              else
                r <- trigger_sensor_poll_for_inspection feed jitter inspection_id ;;
                match r with
                | None => ret (HttpError 500)
                | Some p => ret (Respond p)
                end
          end ;;
  db_close ;;;
  ret resp
  end.

(** ** Derived quantities used in the statements *)

(** One iteration of the loop of [poll_sensors_and_predict]. *)
Definition poll_body (feed : nat -> option sensor_data) (jitter : nat -> Q) (ins : inspection)
    : M unit :=
  try_catch (process_inspection feed jitter ins)
            (fun _ => db_attr ;;; log LError "Failed to process inspection").

(** A scheduler thread inside a poll cycle. *)
Definition is_cycle (pc : Scheduler.wpc) : bool :=
  match pc with Scheduler.WCycle => true | _ => false end.

(** The order of the levels. *)
Definition level_rank (l : level) : Z :=
  match l with Low => 0 | Medium => 1 | High => 2 | Critical => 3 end.

(** The inspection a stored row belongs to. *)
Definition row_inspection (r : row) : nat :=
  match r with RSensor x => sd_inspection_id x | RPrediction p => fp_inspection_id p end.

(** The inspections of the stored predictions, in storage order. *)
Definition prediction_ids (l : list row) : list nat :=
  flat_map (fun r => match r with RPrediction p => [fp_inspection_id p] | RSensor _ => [] end) l.

(** Two optional values both present with [a <= b], or both absent. *)
Definition opt_le (o1 o2 : option Q) : Prop :=
  match o1, o2 with
  | Some a, Some b => (a <= b)%Q
  | None, None => True
  | _, _ => False
  end.

(** [sd2] has the channels of [sd1], each value at least as high, except
    the wall thickness, at most as high: [sd2] is the more dangerous one. *)
Definition reading_le (sd1 sd2 : sensor_data) : Prop :=
  opt_le (pressure sd1) (pressure sd2) /\ opt_le (temperature sd1) (temperature sd2) /\
  opt_le (wall_thickness sd2) (wall_thickness sd1) /\
  opt_le (corrosion_rate sd1) (corrosion_rate sd2) /\
  opt_le (vibration sd1) (vibration sd2) /\ opt_le (flow_rate sd1) (flow_rate sd2).

(** Every channel present in [sd1] is present in [sd2]. *)
Definition channels_incl (sd1 sd2 : sensor_data) : bool :=
  implb (is_some (pressure sd1)) (is_some (pressure sd2)) &&
  implb (is_some (temperature sd1)) (is_some (temperature sd2)) &&
  implb (is_some (wall_thickness sd1)) (is_some (wall_thickness sd2)) &&
  implb (is_some (corrosion_rate sd1)) (is_some (corrosion_rate sd2)) &&
  implb (is_some (vibration sd1)) (is_some (vibration sd2)) &&
  implb (is_some (flow_rate sd1)) (is_some (flow_rate sd2)).

(** ** Concrete inputs *)

(** A reading with only a wall thickness of 0 mm. *)
Definition wall_zero : sensor_data := mk_sensor_data None None (Some 0%Q) None None None None.

(** Wall 4 mm, corrosion 0.6 mm/year, vibration 1 mm/s, flow 60 %: bucket
    scores 95, 88, 5 and 15, two of them at least 75; the boosted average
    [50.75 * 1.1] is [55.825] exactly, and [55.825000000000003] in [float]s. *)
Definition reading_boost_tie : sensor_data :=
  mk_sensor_data None None (Some 4%Q) (Some (6 # 10)) (Some 1%Q) (Some 60%Q) None.

(** Three channels without the wall thickness: base confidence 40. *)
Definition reading_no_wall : sensor_data :=
  mk_sensor_data (Some 10%Q) (Some 80%Q) None (Some (1 # 10)) None None None.

(** [0.125 + 2^-50], the [float] value of [-5 + 10 * random()] when
    [random()] returns [4616189618054759 / 2^53]. *)
Definition jitter_tie : Q := 140737488355329 # 1125899906842624.

(** The critical scenario of the specification (section 8). *)
Definition reading_critical : sensor_data :=
  mk_sensor_data (Some 22%Q) (Some 125%Q) (Some (45 # 10)) (Some (6 # 10))
                 (Some 8%Q) (Some 110%Q) None.

Definition feed_critical : nat -> option sensor_data := fun _ => Some reading_critical.

Definition jitter_zero : nat -> Q := fun _ => 0%Q.

Definition accept_all : row -> bool := fun _ => false.

(** The foreign key [sensor_data.recorded_by_id -> users.id] over the
    existing user ids [users]. *)
Definition users_fk (users : list nat) : row -> bool :=
  fun r => match r with
           | RSensor x => negb (existsb (Nat.eqb (recorded_by_id x)) users)
           | RPrediction _ => false
           end.

(** Inspection 1 is in progress, inspection 2 is completed, no inspection 3. *)
Definition st_demo : st :=
  mk_st [mk_inspection 1 InProgress (Some 2%nat) 10; mk_inspection 2 Completed (Some 3%nat) 11]
        [] accept_all 1 [] [] false [].

(** Two in-progress inspections; the first has no primary inspector, so its
    reading is recorded by user 1, who does not exist. *)
Definition st_fk : st :=
  mk_st [mk_inspection 1 InProgress None 10; mk_inspection 2 InProgress (Some 2%nat) 11]
        [] (users_fk [2%nat]) 1 [] [] false [].

(** The same database with the second inspection only. *)
Definition st_fk_alone : st :=
  mk_st [mk_inspection 2 InProgress (Some 2%nat) 11]
        [] (users_fk [2%nat]) 1 [] [] false [].

(** Every [random()] draw of the simulator returns 0.5, and the mode choice
    is [normal]. *)
Definition draws_half : string -> draw := fun _ => mk_draw ChooseNormal (1 # 2) (1 # 2).

(** * Properties *)

From Stdlib Require Import Lqa.

(** ** Binary64 rounding: [b64] is monotone, idempotent, odd, exact on
    the doubles, and within half an ulp *)

Lemma rne_spec (y : Q) :
  (- (1 # 2) <= inject_Z (rne y) - y <= 1 # 2)%Q /\
  ((inject_Z (rne y) - y == 1 # 2)%Q \/ (inject_Z (rne y) - y == - (1 # 2))%Q ->
   Z.even (rne y) = true).
Proof.
  unfold rne.
  pose proof (Qfloor_le y) as H1. pose proof (Qlt_floor y) as H2.
  set (fl := Qfloor y) in *.
  rewrite inject_Z_plus in H2. change (inject_Z 1) with 1%Q in H2.
  destruct (Qeq_bool (y - inject_Z fl) (1 # 2)) eqn:E1.
  - apply Qeq_bool_iff in E1.
    destruct (Z.even fl) eqn:Ev.
    + split; [lra|intros _; exact Ev].
    + rewrite inject_Z_plus; change (inject_Z 1) with 1%Q.
      split; [lra|intros _]. rewrite Z.even_add, Ev. reflexivity.
  - apply Qeq_bool_neq in E1.
    destruct (Qle_bool (y - inject_Z fl) (1 # 2)) eqn:E2.
    + apply Qle_bool_iff in E2. split; [lra|].
      intros [E|E]; exfalso; [lra|].
      apply E1. lra.
    + assert (E3 : ~ (y - inject_Z fl <= 1 # 2)%Q)
        by (intros E; apply Qle_bool_iff in E; congruence).
      apply Qnot_le_lt in E3. rewrite inject_Z_plus. change (inject_Z 1) with 1%Q.
      split; [lra|]. intros [E|E]; exfalso; lra.
Qed.

Lemma rne_unique (y : Q) (z : Z) :
  (- (1 # 2) <= inject_Z z - y <= 1 # 2)%Q ->
  ((inject_Z z - y == 1 # 2)%Q \/ (inject_Z z - y == - (1 # 2))%Q -> Z.even z = true) ->
  rne y = z.
Proof.
  intros Hz Ez. destruct (rne_spec y) as [Hr Er].
  set (r := rne y) in *. clearbody r.
  assert (Hd : (-1 <= inject_Z (r - z) <= 1)%Q)
    by (unfold Z.sub; rewrite inject_Z_plus, inject_Z_opp; lra).
  destruct Hd as [Hd1 Hd2].
  change (-1)%Q with (inject_Z (-1)) in Hd1. change 1%Q with (inject_Z 1) in Hd2.
  rewrite <- Zle_Qle in Hd1, Hd2.
  destruct (Z.eq_dec r z) as [|Hne]; [assumption|exfalso].
  assert (Hc : r = z + 1 \/ z = r + 1) by lia.
  destruct Hc as [->| ->]; rewrite inject_Z_plus in *; change (inject_Z 1) with 1%Q in *.
  - assert (Ea : Z.even (z + 1) = true) by (apply Er; left; lra).
    assert (Eb : Z.even z = true) by (apply Ez; right; lra).
    rewrite Z.even_add, Eb in Ea. discriminate.
  - assert (Ea : Z.even (r + 1) = true) by (apply Ez; left; lra).
    assert (Eb : Z.even r = true) by (apply Er; right; lra).
    rewrite Z.even_add, Eb in Ea. discriminate.
Qed.

Lemma rne_Z (z : Z) : rne (inject_Z z) = z.
Proof. apply rne_unique; [lra|]. intros [E|E]; exfalso; lra. Qed.

Lemma rne_comp (x y : Q) : (x == y)%Q -> rne x = rne y.
Proof.
  intros H. destruct (rne_spec y) as [H1 H2]. apply rne_unique.
  - rewrite H. exact H1.
  - rewrite H. exact H2.
Qed.

Lemma rne_opp (y : Q) : rne (- y) = - rne y.
Proof.
  destruct (rne_spec y) as [H1 H2]. apply rne_unique.
  - rewrite inject_Z_opp. lra.
  - rewrite inject_Z_opp. intros E. rewrite Z.even_opp. apply H2. lra.
Qed.

Lemma rne_mono (x y : Q) : (x <= y)%Q -> rne x <= rne y.
Proof.
  intros H. destruct (Z_le_gt_dec (rne x) (rne y)) as [|Hg]; [assumption|exfalso].
  destruct (rne_spec x) as [[Hx1 Hx2] _]. destruct (rne_spec y) as [[Hy1 Hy2] _].
  assert (Hq : (inject_Z (rne y) + 1 <= inject_Z (rne x))%Q).
  { change 1%Q with (inject_Z 1). rewrite <- inject_Z_plus, <- Zle_Qle. lia. }
  assert (Hxy : (x == y)%Q) by lra.
  rewrite (rne_comp _ _ Hxy) in Hg. lia.
Qed.

Lemma P_pos (e : Z) : (0 < 2 ^ e)%Q.
Proof. apply Qpower_0_lt. lra. Qed.

Lemma P_plus (a b : Z) : (2 ^ (a + b) == 2 ^ a * 2 ^ b)%Q.
Proof. apply Qpower_plus. discriminate. Qed.

Lemma P_le (a b : Z) : a <= b -> (2 ^ a <= 2 ^ b)%Q.
Proof. intros H. apply Qpower_le_compat_l; [exact H|lra]. Qed.

Lemma P_lt (a b : Z) : a < b -> (2 ^ a < 2 ^ b)%Q.
Proof. intros H. apply Qpower_lt_compat_l; [exact H|lra]. Qed.

Lemma P_le_inv (a b : Z) : (2 ^ a <= 2 ^ b)%Q -> a <= b.
Proof. intros H. eapply Qpower_le_compat_l_inv; [exact H|lra]. Qed.

Lemma P_lt_inv (a b : Z) : (2 ^ a < 2 ^ b)%Q -> a < b.
Proof. intros H. eapply Qpower_lt_compat_l_inv; [exact H|lra]. Qed.

Lemma P_Z (n : Z) : 0 <= n -> (2 ^ n == inject_Z (2 ^ n))%Q.
Proof. intros H. rewrite Zpower_Qpower by exact H. reflexivity. Qed.

Lemma Qmult_lt_r_inv (a b c : Q) : (0 < c)%Q -> (a * c < b * c)%Q -> (a < b)%Q.
Proof. intros Hc H. apply Qmult_lt_r in H; assumption. Qed.

Lemma mag_spec (x : Q) :
  ~ (x == 0)%Q -> (2 ^ mag x <= Qabs x < 2 ^ (mag x + 1))%Q.
Proof.
  intros Hx. destruct x as [n d].
  assert (Hn : n <> 0) by (intros ->; apply Hx; reflexivity).
  unfold mag. cbn [Qnum Qden].
  set (a := Z.abs n). assert (Ha : 0 < a) by (unfold a; lia).
  assert (HX : (Qabs (n # d) * inject_Z (Zpos d) == inject_Z a)%Q).
  { unfold Qabs, a, Qmult, Qeq, inject_Z. cbn [Qnum Qden]. lia. }
  assert (HD : (0 < inject_Z (Zpos d))%Q) by (unfold Qlt; simpl; lia).
  set (X := Qabs (n # d)) in *. clearbody X.
  destruct (Z.log2_spec a Ha) as [Ha1 Ha2].
  destruct (Z.log2_spec (Zpos d) eq_refl) as [Hd1 Hd2].
  set (la := Z.log2 a) in *. set (ld := Z.log2 (Zpos d)) in *.
  assert (Hla : 0 <= la) by apply Z.log2_nonneg.
  assert (Hld : 0 <= ld) by apply Z.log2_nonneg.
  rewrite Zle_Qle in Ha1. rewrite Zlt_Qlt in Ha2.
  rewrite Zle_Qle in Hd1. rewrite Zlt_Qlt in Hd2.
  rewrite <- !P_Z in Ha1, Ha2, Hd1, Hd2 by lia.
  assert (Hs : forall e, (2 ^ (e + ld) == 2 ^ e * 2 ^ ld)%Q) by (intros; apply P_plus).
  destruct (Qle_bool (2 ^ (la - ld)) X) eqn:E.
  - apply Qle_bool_iff in E. split; [exact E|].
    apply (Qmult_lt_r_inv _ _ (inject_Z (Zpos d)) HD). rewrite HX.
    apply Qlt_le_trans with (2 ^ Z.succ la)%Q; [exact Ha2|].
    assert (Hq : (2 ^ Z.succ la == 2 ^ (la - ld + 1) * 2 ^ ld)%Q).
    { rewrite <- Hs. f_equiv. lia. }
    rewrite Hq. apply Qmult_le_l; [apply P_pos|exact Hd1].
  - assert (E2 : ~ (2 ^ (la - ld) <= X)%Q)
      by (intros F; apply Qle_bool_iff in F; congruence).
    apply Qnot_le_lt in E2. split; [|replace (la - ld - 1 + 1) with (la - ld) by lia; lra].
    apply Qlt_le_weak. apply (Qmult_lt_r_inv _ _ (inject_Z (Zpos d)) HD). rewrite HX.
    apply Qlt_le_trans with (2 ^ la)%Q; [|exact Ha1].
    assert (Hq : (2 ^ la == 2 ^ (la - ld - 1) * 2 ^ Z.succ ld)%Q).
    { unfold Z.succ. rewrite <- P_plus. f_equiv. lia. }
    rewrite Hq. apply Qmult_lt_l; [apply P_pos|exact Hd2].
Qed.

Lemma mag_unique (x : Q) (m : Z) :
  ~ (x == 0)%Q -> (2 ^ m <= Qabs x < 2 ^ (m + 1))%Q -> mag x = m.
Proof.
  intros Hx [H1 H2]. destruct (mag_spec x Hx) as [H3 H4].
  assert (m < mag x + 1) by (apply P_lt_inv; lra).
  assert (mag x < m + 1) by (apply P_lt_inv; lra).
  lia.
Qed.

Lemma mag_comp (x y : Q) : (x == y)%Q -> ~ (x == 0)%Q -> mag x = mag y.
Proof.
  intros H Hx. symmetry. apply mag_unique; [rewrite <- H; exact Hx|].
  rewrite <- H. apply mag_spec, Hx.
Qed.

Lemma mag_opp (x : Q) : mag (- x) = mag x.
Proof.
  destruct x as [n d]. unfold mag. cbn [Qnum Qden Qopp].
  rewrite Z.abs_opp. unfold Qabs, Qopp. cbn [Qnum Qden]. rewrite ?Z.abs_opp. reflexivity.
Qed.

Lemma mag_mono (x y : Q) :
  ~ (x == 0)%Q -> (Qabs x <= Qabs y)%Q -> mag x <= mag y.
Proof.
  intros Hx H.
  assert (Hy : ~ (y == 0)%Q).
  { intros E. apply Hx. assert (Ey : (Qabs y == 0)%Q) by (rewrite E; reflexivity).
    rewrite Ey in H. apply Qabs_Qle_condition in H. lra. }
  destruct (mag_spec x Hx) as [H1 H2]. destruct (mag_spec y Hy) as [H3 H4].
  assert (mag x < mag y + 1) by (apply P_lt_inv; lra). lia.
Qed.

Lemma mag_le (x : Q) (e : Z) : ~ (x == 0)%Q -> (Qabs x < 2 ^ (e + 1))%Q -> mag x <= e.
Proof.
  intros Hx H. destruct (mag_spec x Hx) as [H1 H2].
  assert (mag x < e + 1) by (apply P_lt_inv; lra). lia.
Qed.

Lemma mag_ge (x : Q) (e : Z) : ~ (x == 0)%Q -> (2 ^ e <= Qabs x)%Q -> e <= mag x.
Proof.
  intros Hx H. destruct (mag_spec x Hx) as [H1 H2].
  assert (e < mag x + 1) by (apply P_lt_inv; lra). lia.
Qed.

Lemma b64_zero (x : Q) : (x == 0)%Q -> (b64 x == 0)%Q.
Proof.
  intros H. unfold b64. cbv zeta.
  assert (E : (x * 2 ^ (- ulp_exp x) == inject_Z 0)%Q)
    by (transitivity (0 * 2 ^ (- ulp_exp x))%Q; [apply Qmult_comp; [exact H|reflexivity]|reflexivity]).
  rewrite (rne_comp _ _ E), rne_Z. apply Qmult_0_l.
Qed.

Lemma b64_comp (x y : Q) : (x == y)%Q -> (b64 x == b64 y)%Q.
Proof.
  intros H. destruct (Qeq_dec x 0) as [Hx|Hx].
  - rewrite (b64_zero x Hx), (b64_zero y) by (rewrite <- H; exact Hx). reflexivity.
  - unfold b64, ulp_exp. cbv zeta. rewrite (mag_comp x y H Hx).
    rewrite (rne_comp (x * _) (y * _)) by (rewrite H; reflexivity). reflexivity.
Qed.

#[global] Instance b64_proper : Proper (Qeq ==> Qeq) b64.
Proof. intros x y H. apply b64_comp, H. Qed.

Lemma b64_opp (x : Q) : (b64 (- x) == - b64 x)%Q.
Proof.
  unfold b64, ulp_exp. cbv zeta. rewrite mag_opp.
  set (q := Z.max (mag x - 52) (-1074)).
  rewrite (rne_comp _ (- (x * 2 ^ (- q)))) by ring.
  rewrite rne_opp, inject_Z_opp. ring.
Qed.

Lemma b64_nonneg (x : Q) : (0 <= x)%Q -> (0 <= b64 x)%Q.
Proof.
  intros H. unfold b64. cbv zeta.
  apply Qmult_le_0_compat; [|apply Qlt_le_weak, P_pos].
  change 0%Q with (inject_Z 0). rewrite <- Zle_Qle, <- (rne_Z 0).
  apply rne_mono. apply Qmult_le_0_compat; [exact H|apply Qlt_le_weak, P_pos].
Qed.

Lemma ulp_exp_mono (x y : Q) :
  ~ (x == 0)%Q -> (Qabs x <= Qabs y)%Q -> ulp_exp x <= ulp_exp y.
Proof. intros Hx H. unfold ulp_exp. pose proof (mag_mono x y Hx H). lia. Qed.

Lemma b64_rne_le (x : Q) (e : Z) (N : Z) :
  0 <= N -> (x * 2 ^ (- e) <= 2 ^ N)%Q -> (inject_Z (rne (x * 2 ^ (- e))) * 2 ^ e <= 2 ^ (N + e))%Q.
Proof.
  intros HN H. rewrite P_plus, (P_Z N HN).
  apply Qmult_le_compat_r; [|apply Qlt_le_weak, P_pos].
  rewrite <- Zle_Qle, <- (rne_Z (2 ^ N)). apply rne_mono. rewrite <- P_Z by exact HN. exact H.
Qed.

Lemma b64_rne_ge (x : Q) (e : Z) (N : Z) :
  0 <= N -> (2 ^ N <= x * 2 ^ (- e))%Q -> (2 ^ (N + e) <= inject_Z (rne (x * 2 ^ (- e))) * 2 ^ e)%Q.
Proof.
  intros HN H. rewrite P_plus, (P_Z N HN).
  apply Qmult_le_compat_r; [|apply Qlt_le_weak, P_pos].
  rewrite <- Zle_Qle, <- (rne_Z (2 ^ N)). apply rne_mono. rewrite <- P_Z by exact HN. exact H.
Qed.

Lemma P_cancel (a e : Z) : (2 ^ a * 2 ^ (- e) == 2 ^ (a - e))%Q.
Proof. rewrite <- P_plus. reflexivity. Qed.

Lemma b64_mono_pos (x y : Q) : (0 <= x)%Q -> (x <= y)%Q -> (b64 x <= b64 y)%Q.
Proof.
  intros H0 H. destruct (Qeq_dec x 0) as [Hx|Hx].
  - rewrite (b64_zero x Hx). apply b64_nonneg. lra.
  - assert (Hxp : (0 < x)%Q) by (destruct (Qle_lt_or_eq _ _ H0); [assumption|]; exfalso; apply Hx; symmetry; assumption).
    assert (Hy : ~ (y == 0)%Q) by (intros E; lra).
    assert (Hax : (Qabs x == x)%Q) by (apply Qabs_pos; lra).
    assert (Hay : (Qabs y == y)%Q) by (apply Qabs_pos; lra).
    assert (Hq : ulp_exp x <= ulp_exp y) by (apply ulp_exp_mono; [exact Hx|rewrite Hax, Hay; exact H]).
    destruct (Z.eq_dec (ulp_exp x) (ulp_exp y)) as [E|E].
    + unfold b64. cbv zeta. rewrite E.
      apply Qmult_le_compat_r; [|apply Qlt_le_weak, P_pos].
      rewrite <- Zle_Qle. apply rne_mono.
      apply Qmult_le_compat_r; [exact H|apply Qlt_le_weak, P_pos].
    + destruct (mag_spec x Hx) as [_ Hx2]. destruct (mag_spec y Hy) as [Hy1 _].
      rewrite Hax in Hx2. rewrite Hay in Hy1.
      assert (Eqy : ulp_exp y = mag y - 52) by (unfold ulp_exp in *; lia).
      assert (Hm : mag x + 1 <= mag y) by (unfold ulp_exp in *; lia).
      apply Qle_trans with (2 ^ mag y)%Q.
      * unfold b64. cbv zeta.
        replace (mag y) with ((mag y - ulp_exp x) + ulp_exp x) by lia.
        apply b64_rne_le; [unfold ulp_exp in *; lia|].
        rewrite <- P_cancel. apply Qmult_le_compat_r; [|apply Qlt_le_weak, P_pos].
        apply Qle_trans with (2 ^ (mag x + 1))%Q; [lra|apply P_le; lia].
      * unfold b64. cbv zeta.
        replace (mag y) with (52 + ulp_exp y) by lia.
        apply b64_rne_ge; [lia|].
        replace 52 with (mag y - ulp_exp y) by lia. rewrite <- P_cancel.
        apply Qmult_le_compat_r; [exact Hy1|apply Qlt_le_weak, P_pos].
Qed.

Lemma b64_mono (x y : Q) : (x <= y)%Q -> (b64 x <= b64 y)%Q.
Proof.
  intros H. destruct (Qlt_le_dec x 0) as [Hx|Hx]; [|apply b64_mono_pos; assumption].
  destruct (Qlt_le_dec y 0) as [Hy|Hy].
  - assert (b64 (- y) <= b64 (- x))%Q by (apply b64_mono_pos; lra).
    pose proof (b64_opp x). pose proof (b64_opp y). lra.
  - assert (0 <= b64 (- x))%Q by (apply b64_nonneg; lra).
    assert (0 <= b64 y)%Q by (apply b64_nonneg; lra).
    pose proof (b64_opp x). lra.
Qed.

Lemma b64_repr_pos (k e : Z) :
  0 < k < 2 ^ 53 -> -1074 <= e -> (b64 (inject_Z k * 2 ^ e) == inject_Z k * 2 ^ e)%Q.
Proof.
  intros Hk He. set (v := (inject_Z k * 2 ^ e)%Q).
  assert (Hv : (0 < v)%Q).
  { unfold v. apply Qmult_lt_0_compat; [|apply P_pos].
    change 0%Q with (inject_Z 0). rewrite <- Zlt_Qlt. lia. }
  assert (Hv0 : ~ (v == 0)%Q) by (intros E; rewrite E in Hv; discriminate).
  assert (Hm : mag v <= e + 52).
  { apply mag_le; [exact Hv0|]. rewrite Qabs_pos by lra.
    unfold v. replace (e + 52 + 1) with (53 + e) by lia. rewrite P_plus.
    apply Qmult_lt_compat_r; [apply P_pos|]. rewrite P_Z by lia. rewrite <- Zlt_Qlt. lia. }
  assert (Hq : ulp_exp v <= e) by (unfold ulp_exp; lia).
  assert (E : (v * 2 ^ (- ulp_exp v) == inject_Z (k * 2 ^ (e - ulp_exp v)))%Q).
  { rewrite inject_Z_mult, <- (P_Z (e - ulp_exp v)) by lia.
    unfold v at 1. rewrite <- Qmult_assoc, P_cancel. reflexivity. }
  unfold b64. cbv zeta. rewrite (rne_comp _ _ E), rne_Z.
  rewrite inject_Z_mult, <- (P_Z (e - ulp_exp v)) by lia. rewrite <- Qmult_assoc, <- P_plus.
  replace (e - ulp_exp v + ulp_exp v) with e by lia. reflexivity.
Qed.

Lemma b64_idem_pos (x : Q) : (0 < x)%Q -> (b64 (b64 x) == b64 x)%Q.
Proof.
  intros Hx. assert (Hx0 : ~ (x == 0)%Q) by (intros E; rewrite E in Hx; discriminate).
  destruct (mag_spec x Hx0) as [_ H2]. rewrite Qabs_pos in H2 by lra.
  set (q := ulp_exp x).
  assert (Hq : mag x - 52 <= q /\ -1074 <= q) by (unfold q, ulp_exp; lia).
  set (r := rne (x * 2 ^ (- q))).
  assert (Hr : 0 <= r <= 2 ^ 53).
  { split.
    - rewrite <- (rne_Z 0). apply rne_mono. apply Qmult_le_0_compat; [lra|apply Qlt_le_weak, P_pos].
    - rewrite <- (rne_Z (2 ^ 53)). apply rne_mono. rewrite <- P_Z by lia.
      apply Qle_trans with (2 ^ (mag x + 1) * 2 ^ (- q))%Q.
      + apply Qmult_le_compat_r; [lra|apply Qlt_le_weak, P_pos].
      + rewrite P_cancel. apply P_le. lia. }
  assert (Hb : (b64 x == inject_Z r * 2 ^ q)%Q) by reflexivity.
  rewrite Hb.
  destruct (Z.eq_dec r 0) as [E0|E0].
  - rewrite E0. rewrite (b64_zero (inject_Z 0 * 2 ^ q)) by apply Qmult_0_l.
    symmetry. apply Qmult_0_l.
  - destruct (Z.eq_dec r (2 ^ 53)) as [E1|E1].
    + assert (E : (inject_Z r * 2 ^ q == inject_Z (2 ^ 52) * 2 ^ (q + 1))%Q).
      { rewrite E1, <- !P_Z by lia. rewrite <- !P_plus. f_equiv. lia. }
      rewrite E. apply b64_repr_pos; lia.
    + apply b64_repr_pos; lia.
Qed.

Lemma b64_idem (x : Q) : (b64 (b64 x) == b64 x)%Q.
Proof.
  destruct (Q_dec 0 x) as [[Hx|Hx]|Hx].
  - apply b64_idem_pos, Hx.
  - assert (E : (b64 x == - b64 (- x))%Q) by (rewrite b64_opp; ring).
    rewrite E, b64_opp, b64_idem_pos by lra. reflexivity.
  - assert (E : (b64 x == 0)%Q) by (apply b64_zero; symmetry; exact Hx).
    rewrite E. apply b64_zero. reflexivity.
Qed.

Lemma b64_err (x : Q) : (Qabs (b64 x - x) <= (1 # 2) * 2 ^ ulp_exp x)%Q.
Proof.
  destruct (rne_spec (x * 2 ^ (- ulp_exp x))) as [H _].
  unfold b64. cbv zeta. set (q := ulp_exp x) in *.
  assert (E : (inject_Z (rne (x * 2 ^ (- q))) * 2 ^ q - x
               == (inject_Z (rne (x * 2 ^ (- q))) - x * 2 ^ (- q)) * 2 ^ q)%Q).
  { assert (Eq : (2 ^ (- q) * 2 ^ q == 1)%Q) by (rewrite <- P_plus; replace (- q + q) with 0 by lia; reflexivity).
    transitivity (inject_Z (rne (x * 2 ^ (- q))) * 2 ^ q - x * (2 ^ (- q) * 2 ^ q))%Q;
      [rewrite Eq; ring|ring]. }
  rewrite E, Qabs_Qmult, (Qabs_pos (2 ^ q)) by (apply Qlt_le_weak, P_pos).
  apply Qmult_le_compat_r; [|apply Qlt_le_weak, P_pos].
  apply Qabs_Qle_condition. lra.
Qed.

(** ** Arithmetic facts about the model *)

Lemma Qeq_bool_compat a b c : (a == b)%Q -> Qeq_bool a c = Qeq_bool b c.
Proof.
  intros H. apply eq_iff_eq_true. rewrite !Qeq_bool_iff. rewrite H. reflexivity.
Qed.

Lemma Qle_bool_compat a b c : (a == b)%Q -> Qle_bool a c = Qle_bool b c.
Proof.
  intros H. apply eq_iff_eq_true. rewrite !Qle_bool_iff. rewrite H. reflexivity.
Qed.

Lemma Qle_bool_compat_r a b c : (a == b)%Q -> Qle_bool c a = Qle_bool c b.
Proof.
  intros H. apply eq_iff_eq_true. rewrite !Qle_bool_iff. rewrite H. reflexivity.
Qed.

Lemma round2_comp x y : (x == y)%Q -> round2 x = round2 y.
Proof.
  intros H. unfold round2.
  assert (Hm : (x * inject_Z 100 == y * inject_Z 100)%Q) by (rewrite H; reflexivity).
  rewrite (Qfloor_comp _ _ Hm).
  set (f := Qfloor (y * inject_Z 100)).
  assert (Hd : (x * inject_Z 100 - inject_Z f == y * inject_Z 100 - inject_Z f)%Q)
    by (rewrite Hm; reflexivity).
  rewrite (Qeq_bool_compat _ _ _ Hd), (Qle_bool_compat _ _ _ Hd). reflexivity.
Qed.

Lemma round2_ge (k : Z) x : (inject_Z k <= x * inject_Z 100)%Q -> k <= round2 x.
Proof.
  intros H. unfold round2.
  assert (Hk : k <= Qfloor (x * inject_Z 100)).
  { rewrite <- (Qfloor_Z k). apply Qfloor_resp_le. exact H. }
  destruct (Qeq_bool _ _); [destruct (Z.even _)|destruct (Qle_bool _ _)]; lia.
Qed.

Lemma round2_le (k : Z) x : (x * inject_Z 100 <= inject_Z k)%Q -> round2 x <= k.
Proof.
  intros H. unfold round2.
  set (y := (x * inject_Z 100)%Q) in *.
  assert (Hk : Qfloor y <= k).
  { rewrite <- (Qfloor_Z k). apply Qfloor_resp_le. exact H. }
  pose proof (Qfloor_le y) as Hf.
  destruct (Z.eq_dec (Qfloor y) k) as [E|E]; [|destruct (Qeq_bool _ _); [destruct (Z.even _)|destruct (Qle_bool _ _)]; lia].
  assert (Hfr : (y - inject_Z (Qfloor y) <= 0)%Q) by (rewrite E in *; lra).
  assert (Hne : Qeq_bool (y - inject_Z (Qfloor y)) (1 # 2) = false).
  { destruct (Qeq_bool _ _) eqn:Q; [|reflexivity]. apply Qeq_bool_iff in Q. lra. }
  assert (Hle : Qle_bool (y - inject_Z (Qfloor y)) (1 # 2) = true).
  { apply Qle_bool_iff. lra. }
  rewrite Hne, Hle. lia.
Qed.

(** A value that is a whole number of hundredths is stored as it is. *)
Lemma round2_exact (z : Z) x : (x * inject_Z 100 == inject_Z z)%Q -> round2 x = z.
Proof.
  intros H. apply Z.le_antisymm.
  - apply round2_le. rewrite H. lra.
  - apply round2_ge. rewrite H. lra.
Qed.

(** A [float] comparison with a threshold [t] agrees with the exact one
    for every value outside the gap between [lo] and [t], when the doubles
    nearest [lo] and [t] differ. *)
Lemma ge_grid (x t lo : Q) :
  (lo < t)%Q -> Qle_bool (b64 t) (b64 lo) = false -> (x <= lo \/ t <= x)%Q ->
  ge x t = Qle_bool t x.
Proof.
  intros Hlt Hf [H|H]; unfold ge.
  - apply not_true_iff_false in Hf. rewrite Qle_bool_iff in Hf. apply Qnot_le_lt in Hf.
    pose proof (b64_mono _ _ H) as Hm.
    transitivity false; [|symmetry]; apply not_true_iff_false; rewrite Qle_bool_iff; lra.
  - rewrite (proj2 (Qle_bool_iff _ _) H). apply Qle_bool_iff. apply b64_mono, H.
Qed.

Lemma le_grid (x t hi : Q) :
  (t < hi)%Q -> Qle_bool (b64 hi) (b64 t) = false -> (x <= t \/ hi <= x)%Q ->
  le x t = Qle_bool x t.
Proof.
  intros Hlt Hf [H|H]; unfold le.
  - rewrite (proj2 (Qle_bool_iff _ _) H). apply Qle_bool_iff. apply b64_mono, H.
  - apply not_true_iff_false in Hf. rewrite Qle_bool_iff in Hf. apply Qnot_le_lt in Hf.
    pose proof (b64_mono _ _ H) as Hm.
    transitivity false; [|symmetry]; apply not_true_iff_false; rewrite Qle_bool_iff; lra.
Qed.

Lemma ge_of_cents c (k : Z) :
  Qle_bool (b64 (k # 1)) (b64 ((100 * k - 1) # 100)) = false ->
  ge (of_cents c) (k # 1) = (100 * k <=? c).
Proof.
  intros Hk. rewrite (ge_grid _ _ ((100 * k - 1) # 100)); [| |exact Hk|].
  - unfold of_cents. apply eq_iff_eq_true. rewrite Qle_bool_iff, Z.leb_le.
    unfold Qle, Qdiv, Qmult, Qinv, inject_Z; cbn [Qnum Qden]. rewrite (Z.mul_comm 100 k). lia.
  - unfold Qlt; cbn [Qnum Qden]. lia.
  - unfold of_cents, Qle, Qdiv, Qmult, Qinv, inject_Z; cbn [Qnum Qden]. lia.
Qed.

Ltac destruct_channels sd :=
  destruct sd as [[?|] [?|] [?|] [?|] [?|] [?|] ?].

(** ** Probability of failure *)

(** The scores the code appends are those of the threshold table, in order. *)
Lemma risk_scores_table sd : risk_scores sd = present_scores_with b64 sd.
Proof. destruct_channels sd; reflexivity. Qed.

Lemma present_scores_length fl sd :
  List.length (present_scores_with fl sd) = channels_present sd.
Proof. destruct_channels sd; reflexivity. Qed.

(** C4: a reading with all six channels null has a probability of failure
    of exactly 15.00. *)
Theorem calculate_pof_no_channels (n : option string) :
  calculate_pof (mk_sensor_data None None None None None None n) = 1500.
Proof. reflexivity. Qed.

(** C3 (corrected): with at least one channel present, [calculate_pof] is
    the rule of the table evaluated in [float]s: each value and threshold is
    the nearest double, the average of the bucket scores is the double
    nearest the mean, the boosts multiply it by the doubles nearest 1.2
    (capped at 95, when at least three scores are 75 or more) and 1.1
    (capped at 90, when exactly two are) with the product rounded to a
    double, and the result is rounded to two decimals. *)
Theorem calculate_pof_average_float (sd : sensor_data) :
  (1 <= channels_present sd)%nat -> calculate_pof sd = spec_pof_float sd.
Proof.
  intros Hn. unfold calculate_pof, spec_pof_float, spec_pof_with. rewrite risk_scores_table.
  pose proof (present_scores_length b64 sd) as Hl.
  destruct (present_scores_with b64 sd) as [|x l]; [simpl in Hl; lia|].
  set (n := List.length (filter (fun s => 75 <=? s) (x :: l))).
  destruct (3 <=? n)%nat eqn:H3; [reflexivity|].
  apply Nat.leb_gt in H3.
  destruct (Nat.leb_spec0 2 n); destruct (Nat.eqb_spec n 2); try reflexivity; lia.
Qed.

(** C3 counterexample: in exact arithmetic the boosted average 55.825 of
    [reading_boost_tie] is a tie, rounded to 55.82; the code's [float]
    product lies above it and gives 55.83. *)
Lemma calculate_pof_float_rounding :
  (1 <= channels_present reading_boost_tie)%nat /\
  calculate_pof reading_boost_tie = 5583 /\ spec_pof reading_boost_tie = 5582.
Proof. vm_compute. split; [lia|split; reflexivity]. Qed.

(** ** Consequence of failure *)

Lemma truthy_ge (o : option Q) (t : Q) :
  Qle_bool (b64 t) 0 = false ->
  truthy o && opt_test o (fun v => ge v t) = opt_test o (fun v => ge v t).
Proof.
  intros Ht. destruct o as [v|]; [|reflexivity]. simpl.
  destruct (Qeq_bool v 0) eqn:E; [|reflexivity]. simpl.
  apply Qeq_bool_iff in E. symmetry. unfold ge.
  rewrite (Qle_bool_compat_r _ _ (b64 t) (b64_zero v E)), Ht. reflexivity.
Qed.

(** On values with four decimals, the [float] comparisons with the
    thresholds of [calculate_cof] are the exact ones. *)
Lemma ge_grid4 (v t : Q) (T : Z) :
  (t == T # 10000)%Q -> Qle_bool (b64 t) (b64 ((T - 1) # 10000)) = false ->
  (exists k : Z, (v == k # 10000)%Q) -> ge v t = at_least v t.
Proof.
  intros Ht Hf [k Hk]. unfold at_least.
  apply (ge_grid v t ((T - 1) # 10000)); [| exact Hf |].
  - rewrite Ht. unfold Qlt; cbn [Qnum Qden]. lia.
  - rewrite Ht, Hk. unfold Qle; cbn [Qnum Qden]. lia.
Qed.

Lemma le_grid4 (v t : Q) (T : Z) :
  (t == T # 10000)%Q -> Qle_bool (b64 ((T + 1) # 10000)) (b64 t) = false ->
  (exists k : Z, (v == k # 10000)%Q) -> le v t = at_most v t.
Proof.
  intros Ht Hf [k Hk]. unfold at_most.
  apply (le_grid v t ((T + 1) # 10000)); [| exact Hf |].
  - rewrite Ht. unfold Qlt; cbn [Qnum Qden]. lia.
  - rewrite Ht, Hk. unfold Qle; cbn [Qnum Qden]. lia.
Qed.

Lemma opt_test_ge4 (o : option Q) (t : Q) (T : Z) :
  grid4 o -> (t == T # 10000)%Q -> Qle_bool (b64 t) (b64 ((T - 1) # 10000)) = false ->
  opt_test o (fun v => ge v t) = opt_test o (fun v => at_least v t).
Proof.
  destruct o as [v|]; [|reflexivity]. simpl. intros. apply (ge_grid4 v t T); assumption.
Qed.

Lemma opt_test_le4 (o : option Q) (t : Q) (T : Z) :
  grid4 o -> (t == T # 10000)%Q -> Qle_bool (b64 ((T + 1) # 10000)) (b64 t) = false ->
  opt_test o (fun v => le v t) = opt_test o (fun v => at_most v t).
Proof.
  destruct o as [v|]; [|reflexivity]. simpl. intros. apply (le_grid4 v t T); assumption.
Qed.

(** Wherever the wall thickness is not zero, the code adds the points the
    specification lists. *)
Lemma calculate_cof_spec_nonzero_wall sd pof :
  grid4 (pressure sd) -> grid4 (temperature sd) ->
  grid4 (wall_thickness sd) -> grid4 (corrosion_rate sd) ->
  (forall q, wall_thickness sd = Some q -> ~ (q == 0)%Q) ->
  calculate_cof sd pof = spec_cof sd pof.
Proof.
  intros Gp Gt Gw Gc Hw. unfold calculate_cof, spec_cof.
  rewrite !truthy_ge by (vm_compute; reflexivity).
  rewrite !(ge_of_cents pof) by (vm_compute; reflexivity).
  change (100 * 80) with 8000. change (100 * 60) with 6000.
  assert (Hwt : truthy (wall_thickness sd) && opt_test (wall_thickness sd) (fun v => le v 5)
                = opt_test (wall_thickness sd) (fun v => le v 5)).
  { destruct (wall_thickness sd) as [v|]; [|reflexivity]. simpl.
    destruct (Qeq_bool v 0) eqn:E; [|reflexivity].
    apply Qeq_bool_iff in E. exfalso. exact (Hw v eq_refl E). }
  rewrite Hwt.
  rewrite (opt_test_ge4 _ _ 200000 Gp), (opt_test_ge4 _ _ 1200000 Gt),
    (opt_test_le4 _ _ 50000 Gw), (opt_test_ge4 _ _ 5000 Gc)
    by (vm_compute; reflexivity).
  destruct (pressure sd), (temperature sd), (wall_thickness sd), (corrosion_rate sd);
    simpl;
    repeat match goal with
           | |- context [at_least ?a ?b] => destruct (at_least a b)
           | |- context [at_most ?a ?b] => destruct (at_most a b)
           | |- context [?k <=? pof] => destruct (k <=? pof)
           end; reflexivity.
Qed.

(** C2 (code_bug): a wall thickness of 0 mm is present and below
    the critical 5 mm, so the stated rule adds 4 points and, with the
    probability 95.00 of such a reading adding 2, gives [high]; the code's
    truthiness test skips the zero value and returns [low]. *)
Lemma calculate_cof_zero_wall_thickness :
  calculate_pof wall_zero = 9500 /\
  calculate_cof wall_zero (calculate_pof wall_zero) = Low /\
  spec_cof wall_zero (calculate_pof wall_zero) = High.
Proof. vm_compute. auto. Qed.

(** ** Confidence *)

Lemma clamp_minmax (x : Q) :
  (Qmax 30 (Qmin 95 x) == clamp 30 95 x)%Q.
Proof.
  unfold clamp.
  destruct (Qle_bool x 30) eqn:E1.
  - apply Qle_bool_iff in E1.
    rewrite (Q.min_r 95 x) by lra. rewrite Q.max_l by lra. reflexivity.
  - destruct (Qle_bool 95 x) eqn:E2.
    + apply Qle_bool_iff in E2.
      rewrite (Q.min_l 95 x) by lra. rewrite Q.max_r by lra. reflexivity.
    + assert (H1 : ~ (x <= 30)%Q) by (intros H; apply Qle_bool_iff in H; congruence).
      assert (H2 : ~ (95 <= x)%Q) by (intros H; apply Qle_bool_iff in H; congruence).
      rewrite (Q.min_r 95 x) by lra. rewrite Q.max_r by lra. reflexivity.
Qed.

Lemma clamp_bounds (x : Q) : (30 <= clamp 30 95 x <= 95)%Q.
Proof.
  unfold clamp.
  destruct (Qle_bool x 30) eqn:E1; [lra|].
  destruct (Qle_bool 95 x) eqn:E2; [lra|].
  assert (H1 : ~ (x <= 30)%Q) by (intros H; apply Qle_bool_iff in H; congruence).
  assert (H2 : ~ (95 <= x)%Q) by (intros H; apply Qle_bool_iff in H; congruence).
  lra.
Qed.

Lemma calculate_confidence_base (sd : sensor_data) (variance : Q) :
  calculate_confidence sd variance
  = round2 (Qmax 30 (Qmin 95 (b64 (spec_confidence_base_float sd + variance)))).
Proof. destruct_channels sd; reflexivity. Qed.

Lemma round2_clamp_bounds (x : Q) :
  3000 <= round2 (clamp 30 95 x) <= 9500.
Proof.
  pose proof (clamp_bounds x) as [Hlo Hhi].
  split.
  - apply round2_ge. unfold inject_Z in *. lra.
  - apply round2_le. unfold inject_Z in *. lra.
Qed.

(** C5 (corrected): for every reading and every jitter, the confidence is
    the clamp to [30, 95] of the double nearest the sum of the base and the
    jitter, rounded to two decimals; the base is computed in [float]s (the
    double nearest [present channels / 6], times 100, and times the double
    nearest 0.8 when the wall thickness or the corrosion rate is missing,
    each product rounded to a double).  It lies in [30.00, 95.00]. *)
Theorem calculate_confidence_float (sd : sensor_data) (variance : Q) :
  calculate_confidence sd variance
    = round2 (clamp 30 95 (b64 (spec_confidence_base_float sd + variance))) /\
  3000 <= calculate_confidence sd variance <= 9500.
Proof.
  rewrite calculate_confidence_base.
  rewrite (round2_comp _ _ (clamp_minmax _)).
  split; [reflexivity|apply round2_clamp_bounds].
Qed.

(** C5 counterexample: three channels without the wall thickness give the
    base 40, and the jitter [0.125 + 2^-50] is the [float] value of
    [uniform(-5, 5)] for one draw of [random()]; the sum is rounded to the
    double 40.125, which formats as 40.12, where the exact sum gives 40.13. *)
Lemma calculate_confidence_exact_rounding :
  (b64 (-5 + b64 (10 * (4616189618054759 # 9007199254740992))) == jitter_tie)%Q /\
  calculate_confidence reading_no_wall jitter_tie = 4012 /\
  round2 (clamp 30 95 (spec_confidence_base reading_no_wall + jitter_tie)) = 4013.
Proof. vm_compute. split; [reflexivity|split; reflexivity]. Qed.

(** ** Priority *)

(** C6: the priority is [critical] when the consequence is critical or the
    probability is at least 80, else [high] when the consequence is high or
    the probability is at least 60, else [medium] when the consequence is
    medium or the probability is at least 40, else [low]. *)
Theorem generate_recommendation_priority (pof : Z) (cof : level) :
  0 <= pof <= 10000 -> snd (generate_recommendation pof cof) = spec_priority pof cof.
Proof.
  intros _. unfold generate_recommendation, spec_priority.
  rewrite !ge_of_cents by (vm_compute; reflexivity).
  change (100 * 80) with 8000. change (100 * 60) with 6000. change (100 * 40) with 4000.
  destruct cof; simpl;
    destruct (8000 <=? pof); destruct (6000 <=? pof); destruct (4000 <=? pof); reflexivity.
Qed.

(** ** [predict] and its transaction *)

(** The outcome of [predict] in a session that does not need a rollback:
    either both rows are committed, after whatever the session already held,
    or the transaction is rolled back and the storage error is raised. *)
Lemma predict_outcome (insp : nat) (sd : sensor_data) (user : nat) (v : Q) (s : st) :
  needs_rollback s = false ->
  let r := mk_sensor_row (next_id s) insp sd user in
  let pof := calculate_pof sd in
  let cof := calculate_cof sd pof in
  let p := mk_prediction_row (next_id s) insp pof cof (calculate_confidence sd v)
             (round2 (b64 (b64 (of_cents pof) * inject_Z (cof_weights cof))))
             (fst (generate_recommendation pof cof))
             (snd (generate_recommendation pof cof)) "mock_v1.0" in
  let (res, s') := predict insp sd user v s in
  (res = Ok (r, p) /\
   committed s' = committed s ++ flushed s ++ added s ++ [RSensor r; RPrediction p] /\
   flushed s' = [] /\ added s' = [] /\ needs_rollback s' = false /\
   inspections s' = inspections s /\ rejects s' = rejects s /\ next_id s' = S (next_id s))
  \/
  (res = Err StorageError /\ committed s' = committed s /\
   flushed s' = [] /\ added s' = [] /\ needs_rollback s' = true /\
   inspections s' = inspections s /\ rejects s' = rejects s /\ next_id s' = S (next_id s)).
Proof.
  intros Hn. destruct s as [ins com rej nid fl ad nr lg]; simpl in Hn; subst nr.
  cbv zeta. unfold predict, db_commit, bind, ret, log, db_next_id, db_add, db_flush, db_refresh.
  cbn [needs_rollback added flushed committed rejects inspections next_id logs].
  destruct (generate_recommendation (calculate_pof sd) (calculate_cof sd (calculate_pof sd)))
    as [act pr] eqn:Eg.
  destruct (existsb rej (ad ++ [RSensor (mk_sensor_row nid insp sd user)])) eqn:E1.
  - right. cbn. repeat split; reflexivity.
  - cbn. match goal with |- context [rej ?x] => destruct (rej x) eqn:E2 end; cbn.
    + right. repeat split; reflexivity.
    + left. repeat split; try reflexivity.
      rewrite <- !app_assoc. reflexivity.
Qed.

Lemma predict_needs_rollback (insp : nat) (sd : sensor_data) (user : nat) (v : Q) (s : st) :
  needs_rollback s = true -> fst (predict insp sd user v s) = Err PendingRollback.
Proof.
  intros Hn. destruct s as [ins com rej nid fl ad nr lg]; simpl in Hn; subst nr.
  reflexivity.
Qed.

Lemma risk_exact (c w : Z) : round2 (of_cents c * inject_Z w)%Q = c * w.
Proof.
  apply round2_exact.
  unfold of_cents, Qeq, Qdiv, Qmult, Qinv, inject_Z; cbn [Qnum Qden]. nia.
Qed.

Lemma round2_rne x : round2 x = rne (x * inject_Z 100).
Proof. reflexivity. Qed.

Lemma round2_near (k : Z) x :
  (Qabs (x * inject_Z 100 - inject_Z k) < 1 # 2)%Q -> round2 x = k.
Proof.
  intros H. rewrite round2_rne. apply Qabs_Qlt_condition in H.
  apply rne_unique; [lra|intros [E|E]; lra].
Qed.

Lemma b64_err_small x :
  (Qabs x < 2 ^ 10)%Q -> (Qabs (b64 x - x) <= 1 # 10000000000000)%Q.
Proof.
  intros H. destruct (Qeq_dec x 0) as [E|E].
  - rewrite (b64_zero x E), E. vm_compute. discriminate.
  - pose proof (b64_err x) as He.
    assert (Hu : ulp_exp x <= -43).
    { unfold ulp_exp. pose proof (mag_le x 9 E H). lia. }
    apply P_le in Hu.
    assert (Hh : ((1 # 2) * 2 ^ (-43) <= 1 # 10000000000000)%Q) by (vm_compute; discriminate).
    eapply Qle_trans; [exact He|]. eapply Qle_trans; [|exact Hh].
    apply Qmult_le_l; [reflexivity|exact Hu].
Qed.

(** The stored risk score: the [float] product of [float(pof)] and the
    weight, formatted with two decimals, is the exact product. *)
Lemma risk_float (c w : Z) :
  0 <= c <= 10000 -> 1 <= w <= 4 ->
  round2 (b64 (b64 (of_cents c) * inject_Z w)) = c * w.
Proof.
  intros Hc Hw. apply round2_near.
  assert (Hx1 : (inject_Z c == of_cents c * 100)%Q).
  { unfold of_cents, Qeq, Qdiv, Qmult, Qinv, inject_Z; cbn [Qnum Qden]. lia. }
  assert (H1 : (0 <= of_cents c <= 100)%Q).
  { unfold of_cents, Qle, Qdiv, Qmult, Qinv, inject_Z; cbn [Qnum Qden]. lia. }
  assert (H1024 : (2 ^ 10 == 1024)%Q) by (vm_compute; reflexivity).
  pose proof (b64_err_small (of_cents c)) as E1.
  rewrite H1024, Qabs_Qlt_condition in E1. specialize (E1 ltac:(lra)).
  apply Qabs_Qle_condition in E1.
  set (x1 := of_cents c) in *. set (y1 := b64 x1) in *.
  rewrite inject_Z_mult, Hx1.
  assert (Hw' : w = 1 \/ w = 2 \/ w = 3 \/ w = 4) by lia.
  destruct Hw' as [-> | [-> | [-> | ->]]]; unfold inject_Z;
    match goal with |- context [b64 ?z] => pose proof (b64_err_small z) as E2 end;
    rewrite H1024, Qabs_Qlt_condition in E2; specialize (E2 ltac:(lra));
    apply Qabs_Qle_condition in E2;
    apply Qabs_Qlt_condition; lra.
Qed.

(** C8: in a session that does not need a rollback, [predict] either
    commits the reading and its prediction together, or rolls the whole
    transaction back, leaves no written row behind and raises the storage
    error. *)
Theorem predict_atomic (insp : nat) (sd : sensor_data) (user : nat) (v : Q) (s : st) :
  needs_rollback s = false ->
  match predict insp sd user v s with
  | (Ok (r, p), s') =>
      committed s' = committed s ++ flushed s ++ added s ++ [RSensor r; RPrediction p] /\
      sensor_data_id p = sd_id r
  | (Err e, s') =>
      e = StorageError /\ committed s' = committed s /\ flushed s' = [] /\ added s' = []
  end.
Proof.
  intros Hn. pose proof (predict_outcome insp sd user v s Hn) as H. cbv zeta in H.
  destruct (predict insp sd user v s) as [res s'].
  destruct H as [(-> & Hc & _)|(-> & Hc & Hf & Ha & _)].
  - split; [exact Hc|reflexivity].
  - auto.
Qed.
Lemma find_inspection_id id l i : find_inspection id l = Some i -> ins_id i = id.
Proof.
  unfold find_inspection. intros H. apply find_some in H as [_ H].
  apply Nat.eqb_eq in H. exact H.
Qed.



(** ** The poll cycle *)

(** C9 (code_bug): two in-progress inspections; the reading of the first is
    refused by the database (its recording user does not exist).  The
    exception is caught, but the session is not rolled back, so the second
    inspection, which gets its prediction when polled on its own, gets none
    in the same cycle. *)
Theorem poll_storage_failure_not_isolated :
  predictions_for 1 (committed (snd (poll_sensors_and_predict feed_critical jitter_zero st_fk))) = 0%nat /\
  predictions_for 2 (committed (snd (poll_sensors_and_predict feed_critical jitter_zero st_fk))) = 0%nat /\
  predictions_for 2 (committed (snd (poll_sensors_and_predict feed_critical jitter_zero st_fk_alone))) = 1%nat /\
  fst (poll_sensors_and_predict feed_critical jitter_zero st_fk) = Ok tt.
Proof. vm_compute. repeat split. Qed.

(** ** The scheduler *)

(** Started twice from its initial state, the scheduler has one worker; the
    second call only logs a warning. *)
Lemma start_twice_from_init :
  let s1 := fst (Scheduler.start Scheduler.init) in
  Scheduler.start s1 = (s1, [(LWarning, "Scheduler is already running"%string)]) /\
  Scheduler.live s1 = 1%nat.
Proof. split; reflexivity. Qed.

(** Stopped twice, the scheduler is stopped after each call; the second call
    only logs a warning. *)
Lemma stop_twice (s : Scheduler.sched) :
  let s1 := fst (Scheduler.stop s) in
  Scheduler.running s1 = false /\
  Scheduler.stop s1 = (s1, [(LWarning, "Scheduler is not running"%string)]).
Proof.
  destruct s as [[|] ws th]; split; reflexivity.
Qed.

(** C10 (code_bug): start, let the worker reach [time.sleep], stop (the
    5-second [join] returns while it sleeps), then start twice.  The second
    start is a no-op, yet two workers run the loop, and both reach a poll
    cycle at the same time. *)
Theorem restart_leaves_two_loops :
  let s := fst (Scheduler.stop
                 (Scheduler.worker_step 0 (Scheduler.worker_step 0
                   (Scheduler.worker_step 0 (fst (Scheduler.start Scheduler.init)))))) in
  let s4 := fst (Scheduler.start (fst (Scheduler.start s))) in
  Scheduler.reachable s /\ Scheduler.running s = false /\
  snd (Scheduler.start (fst (Scheduler.start s)))
    = [(LWarning, "Scheduler is already running"%string)] /\
  Scheduler.running s4 = true /\ Scheduler.live s4 = 2%nat /\
  Scheduler.polling (Scheduler.worker_step 1 (Scheduler.worker_step 0
                       (Scheduler.worker_step 0 s4))) = 2%nat.
Proof.
  cbv zeta. split; [|repeat split].
  eapply Scheduler.reach_step; [|apply Scheduler.step_stop].
  eapply Scheduler.reach_step;
    [|eapply Scheduler.step_worker with (i := 0%nat) (pc := Scheduler.WSleepCheck);
      [reflexivity|discriminate]].
  eapply Scheduler.reach_step;
    [|eapply Scheduler.step_worker with (i := 0%nat) (pc := Scheduler.WCycle);
      [reflexivity|discriminate]].
  eapply Scheduler.reach_step;
    [|eapply Scheduler.step_worker with (i := 0%nat) (pc := Scheduler.WCheck);
      [reflexivity|discriminate]].
  eapply Scheduler.reach_step; [apply Scheduler.reach_init|apply Scheduler.step_start].
Qed.

(** ** Witnesses: the theorems with hypotheses at concrete inputs *)

Lemma calculate_pof_average_float_witness :
  (1 <= channels_present reading_critical)%nat /\
  calculate_pof reading_critical = spec_pof_float reading_critical.
Proof.
  split; [vm_compute; lia|].
  apply calculate_pof_average_float. vm_compute. lia.
Defined.

Lemma generate_recommendation_priority_witness :
  0 <= 7250 <= 10000 /\
  snd (generate_recommendation 7250 Medium) = spec_priority 7250 Medium.
Proof.
  split; [lia|].
  apply generate_recommendation_priority. lia.
Defined.

Lemma predict_atomic_witness :
  needs_rollback st_demo = false /\
  match predict 1 reading_critical 2 0 st_demo with
  | (Ok (r, p), s') =>
      committed s' = committed st_demo ++ flushed st_demo ++ added st_demo
                     ++ [RSensor r; RPrediction p] /\
      sensor_data_id p = sd_id r
  | (Err e, s') =>
      e = StorageError /\ committed s' = committed st_demo /\ flushed s' = [] /\ added s' = []
  end.
Proof.
  split; [reflexivity|].
  apply predict_atomic. reflexivity.
Defined.

(** * Further properties of the code *)

(** ** Tests of the engine *)

Lemma ge_true x t : ge x t = true -> (b64 t <= b64 x)%Q.
Proof. unfold ge. apply Qle_bool_iff. Qed.

Lemma ge_false x t : ge x t = false -> (b64 x < b64 t)%Q.
Proof.
  unfold ge. intros H. apply Qnot_le_lt. intros H'. apply Qle_bool_iff in H'. congruence.
Qed.

Lemma le_true x t : le x t = true -> (b64 x <= b64 t)%Q.
Proof. unfold le. apply Qle_bool_iff. Qed.

Lemma le_false x t : le x t = false -> (b64 t < b64 x)%Q.
Proof.
  unfold le. intros H. apply Qnot_le_lt. intros H'. apply Qle_bool_iff in H'. congruence.
Qed.

(** A bound on a value settles a [float] test against a threshold when it
    settles it on the doubles. *)
Lemma ge_lb a q t : (a <= q)%Q -> Qle_bool (b64 t) (b64 a) = true -> ge q t = true.
Proof.
  intros Ha H. apply Qle_bool_iff in H. apply Qle_bool_iff.
  pose proof (b64_mono _ _ Ha). lra.
Qed.

Lemma ge_ub q b t : (q <= b)%Q -> Qle_bool (b64 t) (b64 b) = false -> ge q t = false.
Proof.
  intros Hb H. destruct (ge q t) eqn:E; [|reflexivity].
  apply ge_true in E. pose proof (b64_mono _ _ Hb).
  rewrite <- H. symmetry. apply Qle_bool_iff. lra.
Qed.

Lemma le_ub q b t : (q <= b)%Q -> Qle_bool (b64 b) (b64 t) = true -> le q t = true.
Proof.
  intros Hb H. apply Qle_bool_iff in H. apply Qle_bool_iff.
  pose proof (b64_mono _ _ Hb). lra.
Qed.

Lemma le_lb a q t : (a <= q)%Q -> Qle_bool (b64 a) (b64 t) = false -> le q t = false.
Proof.
  intros Ha H. destruct (le q t) eqn:E; [|reflexivity].
  apply le_true in E. pose proof (b64_mono _ _ Ha).
  rewrite <- H. symmetry. apply Qle_bool_iff. lra.
Qed.

(** Settle the threshold tests of the goal from one-sided bounds on the
    values. *)
Ltac decide_bounds :=
  repeat match goal with
  | H : (?a <= ?q)%Q |- context [ge ?q ?t] =>
      rewrite (ge_lb a q t H) by (vm_compute; reflexivity)
  | H : (?q <= ?b)%Q |- context [ge ?q ?t] =>
      rewrite (ge_ub q b t H) by (vm_compute; reflexivity)
  | H : (?q <= ?b)%Q |- context [le ?q ?t] =>
      rewrite (le_ub q b t H) by (vm_compute; reflexivity)
  | H : (?a <= ?q)%Q |- context [le ?q ?t] =>
      rewrite (le_lb a q t H) by (vm_compute; reflexivity)
  end.

(** Case analysis on every threshold test of the goal, dropping the cases the
    hypotheses on the values rule out. *)
Ltac decide_tests :=
  repeat match goal with
  | |- context [ge ?q ?t] =>
      let E := fresh "E" in
      destruct (ge q t) eqn:E; [apply ge_true in E | apply ge_false in E];
      try (exfalso; lra)
  | |- context [le ?q ?t] =>
      let E := fresh "E" in
      destruct (le q t) eqn:E; [apply le_true in E | apply le_false in E];
      try (exfalso; lra)
  | |- context [Qeq_bool ?q ?t] =>
      let E := fresh "E" in
      destruct (Qeq_bool q t) eqn:E; [apply Qeq_bool_iff in E | apply Qeq_bool_neq in E];
      try (exfalso; lra)
  end.

Lemma fold_add_bounds (l : list Z) (a : Z) :
  Forall (fun x => 5 <= x <= 95) l ->
  a + 5 * Z.of_nat (List.length l) <= fold_left Z.add l a <= a + 95 * Z.of_nat (List.length l).
Proof.
  revert a. induction l as [|x l IH]; intros a H; simpl; [lia|].
  inversion H as [|? ? Hx Hl]; subst.
  specialize (IH (a + x) Hl). lia.
Qed.

Lemma score_bounds sd : Forall (fun x => 5 <= x <= 95) (risk_scores sd).
Proof.
  destruct_channels sd; simpl; repeat constructor;
    unfold pressure_score, temperature_score, wall_thickness_score, corrosion_rate_score,
      vibration_score, flow_rate_score;
    repeat match goal with |- context [if ?b then _ else _] => destruct b end; lia.
Qed.

(** The probability of failure lies in [5.00, 95.00]. *)
Lemma calculate_pof_range sd : 500 <= calculate_pof sd <= 9500.
Proof.
  unfold calculate_pof. pose proof (score_bounds sd) as Hb.
  destruct (risk_scores sd) as [|x l] eqn:E; [lia|].
  set (n := List.length (x :: l)).
  pose proof (fold_add_bounds (x :: l) 0 Hb) as Hs. fold n in Hs.
  unfold sum_list. set (S := fold_left Z.add (x :: l) 0) in *.
  assert (Hn : (0 < inject_Z (Z.of_nat n))%Q).
  { unfold n. simpl. unfold Qlt, inject_Z. simpl. lia. }
  set (avg0 := (inject_Z S / inject_Z (Z.of_nat n))%Q).
  assert (Ha0 : (5 <= avg0 <= 95)%Q).
  { split.
    - apply Qle_shift_div_l; [exact Hn|].
      change 5%Q with (inject_Z 5). rewrite <- inject_Z_mult, <- Zle_Qle. lia.
    - apply Qle_shift_div_r; [exact Hn|].
      change 95%Q with (inject_Z 95). rewrite <- inject_Z_mult, <- Zle_Qle. lia. }
  assert (Ha : (5 <= b64 avg0 <= 95)%Q).
  { assert (H5 : (b64 5 == 5)%Q) by (vm_compute; reflexivity).
    assert (H95 : (b64 95 == 95)%Q) by (vm_compute; reflexivity).
    split; [rewrite <- H5 at 1|rewrite <- H95]; apply b64_mono; lra. }
  set (avg := b64 avg0) in *.
  assert (Hr : forall y : Q, (5 <= y <= 95)%Q -> 500 <= round2 y <= 9500).
  { intros y Hy. split; [apply round2_ge|apply round2_le]; unfold inject_Z in *; lra. }
  assert (Hbo : forall m : Q, (1 <= m)%Q -> (5 <= b64 (avg * m))%Q).
  { intros m Hm. assert (H5 : (b64 5 == 5)%Q) by (vm_compute; reflexivity).
    rewrite <- H5 at 1. apply b64_mono. nra. }
  apply Hr.
  destruct (3 <=? _)%nat; [|destruct (2 <=? _)%nat]; [| |exact Ha].
  - split; [apply Q.min_glb; [lra|apply Hbo; vm_compute; discriminate]|apply Q.le_min_l].
  - split; [apply Q.min_glb; [lra|apply Hbo; vm_compute; discriminate]|].
    pose proof (Q.le_min_l 90 (b64 (avg * b64 (11 # 10)))). lra.
Qed.

(** C1: every prediction [predict] creates has
    [risk_score = round(probability_of_failure * weight(consequence), 2)] with
    the weights low 1, medium 2, high 3, critical 4; since the probability
    has two decimals, this is the exact product. *)
Theorem predict_risk_score (insp : nat) (sd : sensor_data) (user : nat) (v : Q) (s : st) :
  match fst (predict insp sd user v s) with
  | Ok (_, p) =>
      let w := match consequence_of_failure p with
               | Low => 1 | Medium => 2 | High => 3 | Critical => 4 end in
      risk_score p = round2 (of_cents (probability_of_failure p) * inject_Z w)%Q /\
      risk_score p = probability_of_failure p * w
  | Err _ => True
  end.
Proof.
  destruct (needs_rollback s) eqn:Hn.
  - rewrite (predict_needs_rollback _ _ _ _ _ Hn). exact I.
  - pose proof (predict_outcome insp sd user v s Hn) as H. cbv zeta in H.
    destruct (predict insp sd user v s) as [res s'].
    destruct H as [(-> & _)|(-> & _)]; [|exact I].
    cbn [fst risk_score probability_of_failure consequence_of_failure].
    pose proof (calculate_pof_range sd) as Hr.
    destruct (calculate_cof sd (calculate_pof sd)); cbn [cof_weights];
      rewrite risk_float by lia; rewrite !risk_exact; split; reflexivity.
Qed.


Lemma generate_recommendation_ranks pof1 pof2 cof :
  pof1 <= pof2 ->
  level_rank cof <= level_rank (snd (generate_recommendation pof1 cof)) /\
  level_rank (snd (generate_recommendation pof1 cof))
    <= level_rank (snd (generate_recommendation pof2 cof)).
Proof.
  intros H. unfold generate_recommendation. rewrite !ge_of_cents by (vm_compute; reflexivity).
  change (100 * 80) with 8000. change (100 * 60) with 6000. change (100 * 40) with 4000.
  destruct cof; simpl;
    repeat match goal with
           | |- context [?k <=? pof1] => destruct (Z.leb_spec k pof1)
           | |- context [?k <=? pof2] => destruct (Z.leb_spec k pof2)
           end; simpl; lia.
Qed.

(** X1: the probability of failure of every reading lies in [5.00, 95.00]. *)
Theorem calculate_pof_bounds (sd : sensor_data) : 500 <= calculate_pof sd <= 9500.
Proof. apply calculate_pof_range. Qed.

(** The bucket scores move with the values, in the direction of danger. *)
Lemma scores_monotone (v w : Q) :
  (v <= w)%Q ->
  pressure_score v <= pressure_score w /\
  temperature_score v <= temperature_score w /\
  corrosion_rate_score v <= corrosion_rate_score w /\
  vibration_score v <= vibration_score w /\
  flow_rate_score v <= flow_rate_score w /\
  wall_thickness_score w <= wall_thickness_score v.
Proof.
  intros H. pose proof (b64_mono _ _ H) as Hb.
  unfold pressure_score, temperature_score, wall_thickness_score, corrosion_rate_score,
    vibration_score, flow_rate_score.
  repeat split; decide_tests; lia.
Qed.

(** X2: the bucket score of each channel never decreases when the value
    moves towards danger: up for pressure, temperature, corrosion rate,
    vibration and flow rate, down for the wall thickness. *)
Theorem bucket_scores_monotone (v w : Q) :
  (v <= w)%Q ->
  pressure_score v <= pressure_score w /\
  temperature_score v <= temperature_score w /\
  corrosion_rate_score v <= corrosion_rate_score w /\
  vibration_score v <= vibration_score w /\
  flow_rate_score v <= flow_rate_score w /\
  wall_thickness_score w <= wall_thickness_score v.
Proof.
  apply scores_monotone.
Qed.

(** X3: for a fixed reading, a higher probability of failure never gives a
    lower consequence level. *)
Theorem calculate_cof_monotone_pof (sd : sensor_data) (pof1 pof2 : Z) :
  pof1 <= pof2 ->
  level_rank (calculate_cof sd pof1) <= level_rank (calculate_cof sd pof2).
Proof.
  intros H. unfold calculate_cof. cbv zeta. rewrite !ge_of_cents by (vm_compute; reflexivity).
  change (100 * 80) with 8000. change (100 * 60) with 6000.
  repeat match goal with
         | |- context [if truthy ?o && ?t then _ else _] => destruct (truthy o && t)
         end;
  repeat match goal with
         | |- context [?k <=? pof1] => destruct (Z.leb_spec k pof1)
         | |- context [?k <=? pof2] => destruct (Z.leb_spec k pof2)
         end; simpl; lia.
Qed.

(** X4: the priority is never below the consequence level, and for a fixed
    consequence it never decreases when the probability of failure grows. *)
Theorem generate_recommendation_monotone (pof1 pof2 : Z) (cof : level) :
  pof1 <= pof2 ->
  level_rank cof <= level_rank (snd (generate_recommendation pof1 cof)) /\
  level_rank (snd (generate_recommendation pof1 cof))
    <= level_rank (snd (generate_recommendation pof2 cof)).
Proof. apply generate_recommendation_ranks. Qed.

Lemma clamp_hi (x : Q) : (95 <= x)%Q -> clamp 30 95 x = 95%Q.
Proof.
  intros H. unfold clamp.
  destruct (Qle_bool x 30) eqn:E1; [apply Qle_bool_iff in E1; lra|].
  destruct (Qle_bool 95 x) eqn:E2; [reflexivity|].
  apply Qle_bool_iff in H. congruence.
Qed.

Lemma clamp_lo (x : Q) : (x <= 30)%Q -> clamp 30 95 x = 30%Q.
Proof.
  intros H. unfold clamp. apply Qle_bool_iff in H. rewrite H. reflexivity.
Qed.

Lemma clamp_hi_b64 (x : Q) : (95 <= x)%Q -> clamp 30 95 (b64 x) = 95%Q.
Proof.
  intros H. apply clamp_hi.
  assert (E : (b64 95 == 95)%Q) by (vm_compute; reflexivity).
  rewrite <- E. apply b64_mono, H.
Qed.

Lemma clamp_lo_b64 (x : Q) : (x <= 30)%Q -> clamp 30 95 (b64 x) = 30%Q.
Proof.
  intros H. apply clamp_lo.
  assert (E : (b64 30 == 30)%Q) by (vm_compute; reflexivity).
  rewrite <- E. apply b64_mono, H.
Qed.

(** X5: every prediction [predict] creates has a probability of failure in
    [5.00, 95.00], a confidence in [30.00, 95.00], a risk score in
    [5.00, 380.00], a priority not below its consequence level, and is linked
    to its reading and to the inspection. *)
Theorem predict_row_ranges (insp : nat) (sd : sensor_data) (user : nat) (v : Q) (s : st) :
  match fst (predict insp sd user v s) with
  | Ok (r, p) =>
      500 <= probability_of_failure p <= 9500 /\
      3000 <= confidence_score p <= 9500 /\
      500 <= risk_score p <= 38000 /\
      level_rank (consequence_of_failure p) <= level_rank (priority p) /\
      sensor_data_id p = sd_id r /\ fp_inspection_id p = insp /\ sd_inspection_id r = insp
  | Err _ => True
  end.
Proof.
  destruct (needs_rollback s) eqn:Hn.
  - rewrite (predict_needs_rollback _ _ _ _ _ Hn). exact I.
  - pose proof (predict_outcome insp sd user v s Hn) as H. cbv zeta in H.
    destruct (predict insp sd user v s) as [res s'].
    destruct H as [(-> & _)|(-> & _)]; [|exact I].
    cbn [fst risk_score probability_of_failure consequence_of_failure confidence_score
         priority sensor_data_id sd_id fp_inspection_id sd_inspection_id].
    pose proof (calculate_pof_range sd) as Hp.
    pose proof (generate_recommendation_ranks (calculate_pof sd) (calculate_pof sd)
                  (calculate_cof sd (calculate_pof sd)) (Z.le_refl _)) as [Hr _].
    rewrite calculate_confidence_base, (round2_comp _ _ (clamp_minmax _)).
    split; [exact Hp|]. split; [apply round2_clamp_bounds|].
    split; [|split; [exact Hr|auto]].
    destruct (calculate_cof sd (calculate_pof sd)); cbn [cof_weights];
      rewrite risk_float by lia; lia.
Qed.

(** X6: with the jitter in [-5, 5], a reading with all six channels has a
    confidence of exactly 95.00, and a reading with at most one channel has
    exactly 30.00. *)
Theorem calculate_confidence_edges (sd : sensor_data) (v : Q) :
  (-5 <= v <= 5)%Q ->
  (channels_present sd = 6%nat -> calculate_confidence sd v = 9500) /\
  ((channels_present sd <= 1)%nat -> calculate_confidence sd v = 3000).
Proof.
  intros Hv. rewrite calculate_confidence_base, (round2_comp _ _ (clamp_minmax _)).
  split; intros Hc; destruct_channels sd; vm_compute in Hc; try lia;
    match goal with
    | |- context [spec_confidence_base_float ?x] =>
        let b := eval vm_compute in (spec_confidence_base_float x) in
        assert (Hb : spec_confidence_base_float x = b) by (vm_compute; reflexivity);
        rewrite Hb
    end;
    first [rewrite clamp_hi_b64 by lra | rewrite clamp_lo_b64 by lra]; reflexivity.
Qed.

(** The engine on a reading with the six channels given. *)
Ltac unfold_engine :=
  unfold calculate_pof, calculate_cof, risk_scores, push, pressure_score, temperature_score,
    wall_thickness_score, corrosion_rate_score, vibration_score, flow_rate_score;
  cbn [pressure temperature wall_thickness corrosion_rate vibration flow_rate truthy opt_test
       app andb negb].

(** X7: a reading whose six channels all lie in their critical bands
    (pressure >= 20, temperature >= 120, wall thickness <= 5, corrosion rate
    >= 0.5, vibration >= 7, flow rate >= 100) has a probability of failure of
    95.00, a critical consequence and a critical priority. *)
Theorem critical_band_reading (p t w c v f : Q) (n : option string) :
  (20 <= p)%Q -> (120 <= t)%Q -> (w <= 5)%Q -> (5 # 10 <= c)%Q -> (7 <= v)%Q -> (100 <= f)%Q ->
  let sd := mk_sensor_data (Some p) (Some t) (Some w) (Some c) (Some v) (Some f) n in
  calculate_pof sd = 9500 /\
  calculate_cof sd (calculate_pof sd) = Critical /\
  snd (generate_recommendation (calculate_pof sd) (calculate_cof sd (calculate_pof sd))) = Critical.
Proof.
  intros Hp Ht Hw Hc Hv Hf. cbv zeta. unfold_engine. decide_bounds. decide_tests; vm_compute; auto.
Qed.

(** X8: a reading whose six channels all lie below their safe thresholds by
    at least one unit of the last decimal the columns store (pressure at
    most 9.99, temperature at most 79.99, wall thickness at least 10.01,
    corrosion rate at most 0.0999, vibration at most 2.79, flow rate at
    most 49.99) has a probability of failure of 8.00, a low consequence and
    a low priority. *)
Theorem safe_band_reading (p t w c v f : Q) (n : option string) :
  (p <= 999 # 100)%Q -> (t <= 7999 # 100)%Q -> (1001 # 100 <= w)%Q ->
  (c <= 999 # 10000)%Q -> (v <= 279 # 100)%Q -> (f <= 4999 # 100)%Q ->
  let sd := mk_sensor_data (Some p) (Some t) (Some w) (Some c) (Some v) (Some f) n in
  calculate_pof sd = 800 /\
  calculate_cof sd (calculate_pof sd) = Low /\
  snd (generate_recommendation (calculate_pof sd) (calculate_cof sd (calculate_pof sd))) = Low.
Proof.
  intros Hp Ht Hw Hc Hv Hf. cbv zeta. unfold_engine. decide_bounds. decide_tests; vm_compute; auto.
Qed.

(** ** The poll cycle and the manual trigger *)

Lemma existsb_accept (rej : row -> bool) (l : list row) :
  (forall x, rej x = false) -> existsb rej l = false.
Proof. intros H. induction l as [|x l IH]; simpl; [reflexivity|]. rewrite H, IH. reflexivity. Qed.

(** [predict] when the database accepts every row. *)
Lemma predict_accepted (insp : nat) (sd : sensor_data) (user : nat) (v : Q) (s : st) :
  (forall x, rejects s x = false) -> needs_rollback s = false ->
  let (res, s') := predict insp sd user v s in
  exists r p, res = Ok (r, p) /\
   r = mk_sensor_row (next_id s) insp sd user /\
   fp_inspection_id p = insp /\ probability_of_failure p = calculate_pof sd /\
   consequence_of_failure p = calculate_cof sd (calculate_pof sd) /\
   committed s' = committed s ++ flushed s ++ added s ++ [RSensor r; RPrediction p] /\
   flushed s' = [] /\ added s' = [] /\ needs_rollback s' = false /\
   inspections s' = inspections s /\ rejects s' = rejects s.
Proof.
  intros Hr Hn. destruct s as [ins com rej nid fl ad nr lg]; simpl in Hn, Hr; subst nr.
  unfold predict, db_commit, bind, ret, log, db_next_id, db_add, db_flush, db_refresh.
  cbn [needs_rollback added flushed committed rejects inspections next_id logs].
  destruct (generate_recommendation (calculate_pof sd) (calculate_cof sd (calculate_pof sd)))
    as [act pr] eqn:Eg.
  rewrite !existsb_accept by exact Hr. cbn.
  eexists _, _. split; [reflexivity|].
  repeat split; try reflexivity. rewrite <- !app_assoc. reflexivity.
Qed.

Lemma find_inspection_in (i : inspection) (l : list inspection) :
  In i l -> exists j, find_inspection (ins_id i) l = Some j.
Proof.
  intros Hi. destruct (find_inspection (ins_id i) l) as [j|] eqn:E; [eauto|].
  unfold find_inspection in E. apply (find_none _ _ E) in Hi.
  rewrite Nat.eqb_refl in Hi. discriminate.
Qed.

(** One iteration of the loop, whatever the database does.  It may raise:
    after a failed flush the handler's read of [inspection.id] does. *)
Lemma poll_body_any feed jitter ins s :
  flushed s = [] -> added s = [] ->
  let (res, s') := poll_body feed jitter ins s in
  flushed s' = [] /\ added s' = [] /\
  inspections s' = inspections s /\ rejects s' = rejects s /\
  exists new, committed s' = committed s ++ new /\
    Forall (fun r => row_inspection r = ins_id ins) new.
Proof.
  intros Hf Ha. destruct s as [ins0 com rej nid fl ad nr lg]; simpl in Hf, Ha; subst fl ad.
  unfold poll_body, process_inspection, try_catch, bind, sense, db_attr.
  cbn [needs_rollback]. destruct nr.
  { cbn. do 4 (split; [reflexivity|]). exists []. split; [symmetry; apply app_nil_r|constructor]. }
  destruct (feed (ins_id ins)) as [rd|]; cbn -[generate_ai_assessment].
  2:{ do 4 (split; [reflexivity|]). exists []. split; [symmetry; apply app_nil_r|constructor]. }
  unfold generate_ai_assessment, bind, db_query_inspection. cbn -[predict].
  match goal with |- context [find ?f ins0] => destruct (find f ins0) as [j|] end;
    cbn -[predict].
  2:{ do 4 (split; [reflexivity|]). exists []. split; [symmetry; apply app_nil_r|constructor]. }
  set (s1 := {| inspections := ins0; committed := com; rejects := rej; next_id := nid;
                flushed := []; added := []; needs_rollback := false; logs := lg |}).
  pose proof (predict_outcome (ins_id ins) (with_notes rd "Automatic sensor reading")
                (recording_user ins) (jitter (ins_id ins)) s1 eq_refl) as H.
  cbv zeta in H. unfold s1 in *. clear s1.
  cbn [inspections committed rejects flushed added next_id needs_rollback app] in H.
  destruct (predict _ _ _ _ _) as [res s'].
  destruct H as [(-> & Hc & Hf' & Ha' & _ & Hi & Hj & _)|(-> & Hc & Hf' & Ha' & Hn' & Hi & Hj & _)].
  - unfold log, ret. cbn.
    destruct (level_eqb _ Critical); cbn; do 4 (split; [first [reflexivity|assumption]|]);
      eexists; (split; [exact Hc|]); cbn; repeat constructor.
  - rewrite Hn'. cbn. do 4 (split; [assumption|]).
    exists []. split; [rewrite Hc; symmetry; apply app_nil_r|constructor].
Qed.

Lemma for_each_poll_any feed jitter (l : list inspection) s :
  flushed s = [] -> added s = [] ->
  let (res, s') := for_each l (poll_body feed jitter) s in
  flushed s' = [] /\ added s' = [] /\
  inspections s' = inspections s /\ rejects s' = rejects s /\
  exists new, committed s' = committed s ++ new /\
    Forall (fun r => In (row_inspection r) (map ins_id l)) new.
Proof.
  revert s. induction l as [|x l IH]; intros s Hf Ha.
  - cbn. do 4 (split; [first [reflexivity|assumption]|]).
    exists []. split; [symmetry; apply app_nil_r|constructor].
  - cbn [for_each]. unfold bind.
    pose proof (poll_body_any feed jitter x s Hf Ha) as H.
    destruct (poll_body feed jitter x s) as [r1 s1].
    destruct H as (Hf1 & Ha1 & Hi1 & Hj1 & new1 & Hc1 & Hn1).
    assert (Hn1' : Forall (fun r => In (row_inspection r) (map ins_id (x :: l))) new1).
    { eapply Forall_impl; [|exact Hn1]. intros r Hr. rewrite Hr. left. reflexivity. }
    destruct r1 as [[]|e].
    2:{ do 2 (split; [assumption|]). split; [assumption|]. split; [assumption|].
        exists new1. split; assumption. }
    specialize (IH s1 Hf1 Ha1).
    destruct (for_each l (poll_body feed jitter) s1) as [r2 s2].
    destruct IH as (Hf2 & Ha2 & Hi2 & Hj2 & new2 & Hc2 & Hn2).
    do 2 (split; [assumption|]).
    split; [congruence|]. split; [congruence|].
    exists (new1 ++ new2). split; [rewrite Hc2, Hc1, app_assoc; reflexivity|].
    apply Forall_app. split; [exact Hn1'|].
    eapply Forall_impl; [|exact Hn2]. intros r Hr. right. exact Hr.
Qed.

Lemma status_eqb_in_progress (x : inspection_status) : status_eqb x InProgress = true -> x = InProgress.
Proof. destruct x; simpl; congruence. Qed.

(** X9: whatever the sensor source and the database do, a poll cycle returns
    normally, leaves the session closed, keeps every row committed before it,
    and every row it commits belongs to an inspection that is in progress. *)
Theorem poll_commits_only_in_progress (feed : nat -> option sensor_data) (jitter : nat -> Q)
    (s : st) :
  let (res, s') := poll_sensors_and_predict feed jitter s in
  res = Ok tt /\ flushed s' = [] /\ added s' = [] /\ needs_rollback s' = false /\
  exists new, committed s' = committed s ++ new /\
    Forall (fun r => exists i, In i (inspections s) /\ ins_status i = InProgress /\
                               row_inspection r = ins_id i) new.
Proof.
  unfold poll_sensors_and_predict, db_open, db_close, try_catch, bind, db_query_in_progress, log.
  cbn -[for_each process_inspection].
  match goal with |- context [for_each ?l ?f ?s0] =>
    change f with (poll_body feed jitter);
    pose proof (for_each_poll_any feed jitter l s0 eq_refl eq_refl) as H
  end.
  destruct (for_each _ (poll_body feed jitter) _) as [r1 s1].
  destruct H as (Hf1 & Ha1 & Hi1 & Hj1 & new & Hc & Hn).
  destruct r1 as [[]|e]; cbn;
  (do 4 (split; [reflexivity|]));
  exists new; (split; [exact Hc|]);
  eapply Forall_impl; try exact Hn; intros r Hr;
    apply in_map_iff in Hr as (i & Hi & Hin); apply filter_In in Hin as [Hin Hs];
    exists i; (split; [exact Hin|]); (split; [apply status_eqb_in_progress; exact Hs|auto]).
Qed.

Lemma prediction_ids_app (a b : list row) :
  prediction_ids (a ++ b) = prediction_ids a ++ prediction_ids b.
Proof. unfold prediction_ids. apply flat_map_app. Qed.

(** One iteration of the loop when the database accepts every row. *)
Lemma poll_body_accepted feed jitter ins s :
  (forall x, rejects s x = false) -> needs_rollback s = false ->
  flushed s = [] -> added s = [] ->
  (exists j, find_inspection (ins_id ins) (inspections s) = Some j) ->
  let (res, s') := poll_body feed jitter ins s in
  res = Ok tt /\ flushed s' = [] /\ added s' = [] /\ needs_rollback s' = false /\
  inspections s' = inspections s /\ rejects s' = rejects s /\
  prediction_ids (committed s') =
    prediction_ids (committed s) ++ (if is_some (feed (ins_id ins)) then [ins_id ins] else []).
Proof.
  intros Hr Hn Hf Ha [j Hj].
  destruct s as [ins0 com rej nid fl ad nr lg]; simpl in Hr, Hn, Hf, Ha, Hj; subst fl ad nr.
  unfold poll_body, process_inspection, try_catch, bind, sense, db_attr.
  destruct (feed (ins_id ins)) as [rd|]; cbn -[generate_ai_assessment].
  2:{ do 6 (split; [reflexivity|]). symmetry. apply app_nil_r. }
  unfold generate_ai_assessment, bind, db_query_inspection. cbn -[predict find_inspection].
  rewrite Hj. cbn -[predict].
  pose proof (predict_accepted (ins_id ins) (with_notes rd "Automatic sensor reading")
                (recording_user ins) (jitter (ins_id ins))
                {| inspections := ins0; committed := com; rejects := rej; next_id := nid;
                   flushed := []; added := []; needs_rollback := false; logs := lg |}
                Hr eq_refl) as H.
  destruct (predict _ _ _ _ _) as [res s'].
  destruct H as (r & p & -> & _ & Hp & _ & _ & Hc & Hf' & Ha' & Hn' & Hi & Hj').
  cbn [committed flushed added app] in Hc.
  unfold log, ret. cbn.
  destruct (level_eqb _ Critical); cbn; do 6 (split; [first [reflexivity|assumption]|]);
    rewrite Hc, !prediction_ids_app; cbn; rewrite Hp; reflexivity.
Qed.

Lemma for_each_poll_accepted feed jitter (l : list inspection) s :
  (forall x, rejects s x = false) -> needs_rollback s = false ->
  flushed s = [] -> added s = [] ->
  Forall (fun i => In i (inspections s)) l ->
  let (res, s') := for_each l (poll_body feed jitter) s in
  res = Ok tt /\
  prediction_ids (committed s') =
    prediction_ids (committed s) ++ map ins_id (filter (fun i => is_some (feed (ins_id i))) l).
Proof.
  revert s. induction l as [|x l IH]; intros s Hr Hn Hf Ha Hl.
  - cbn. split; [reflexivity|]. symmetry. apply app_nil_r.
  - inversion Hl as [|? ? Hx Hl']; subst.
    cbn [for_each]. unfold bind.
    pose proof (poll_body_accepted feed jitter x s Hr Hn Hf Ha
                  (find_inspection_in x (inspections s) Hx)) as H.
    destruct (poll_body feed jitter x s) as [r1 s1].
    destruct H as (-> & Hf1 & Ha1 & Hn1 & Hi1 & Hj1 & Hc1).
    assert (Hr1 : forall y, rejects s1 y = false) by (rewrite Hj1; exact Hr).
    assert (Hl1 : Forall (fun i => In i (inspections s1)) l) by (rewrite Hi1; exact Hl').
    specialize (IH s1 Hr1 Hn1 Hf1 Ha1 Hl1).
    destruct (for_each l (poll_body feed jitter) s1) as [r2 s2].
    destruct IH as [-> Hc2]. split; [reflexivity|].
    rewrite Hc2, Hc1, <- app_assoc. cbn.
    destruct (feed (ins_id x)); reflexivity.
Qed.

Lemma filter_and {A} (f g : A -> bool) (l : list A) :
  filter g (filter f l) = filter (fun x => f x && g x) l.
Proof.
  induction l as [|x l IH]; simpl; [reflexivity|].
  destruct (f x); simpl; [destruct (g x); simpl|]; rewrite IH; reflexivity.
Qed.

(** X10: when the database accepts every row, a poll cycle adds exactly one
    prediction for each in-progress inspection whose sensor read succeeds, in
    the order of the query, and none for the others: a failing sensor read
    affects only its own inspection. *)
Theorem poll_accepted_predicts_each (feed : nat -> option sensor_data) (jitter : nat -> Q)
    (s : st) :
  (forall x, rejects s x = false) ->
  prediction_ids (committed (snd (poll_sensors_and_predict feed jitter s))) =
    prediction_ids (committed s) ++
    map ins_id (filter (fun i => status_eqb (ins_status i) InProgress && is_some (feed (ins_id i)))
                       (inspections s)).
Proof.
  intros Hr.
  unfold poll_sensors_and_predict, db_open, db_close, try_catch, bind, db_query_in_progress, log.
  cbn -[for_each process_inspection].
  match goal with |- context [for_each ?l ?f ?s0] =>
    change f with (poll_body feed jitter);
    pose proof (for_each_poll_accepted feed jitter l s0 Hr eq_refl eq_refl eq_refl) as H
  end.
  destruct (for_each _ (poll_body feed jitter) _) as [r1 s1].
  destruct H as [-> Hc].
  { apply Forall_forall. intros i Hi. apply filter_In in Hi. apply Hi. }
  cbn -[prediction_ids]. rewrite Hc, filter_and. reflexivity.
Qed.

Lemma engine_with_notes (rd : sensor_data) (n : string) :
  calculate_pof (with_notes rd n) = calculate_pof rd /\
  calculate_cof (with_notes rd n) (calculate_pof rd) = calculate_cof rd (calculate_pof rd).
Proof. destruct rd; split; reflexivity. Qed.

(** X11: when the database accepts every row, the manual trigger on an
    in-progress inspection whose sensor read succeeds returns the reading and
    its prediction, commits exactly these two rows, records the reading under
    the inspection and the user [primary_inspector_id or 1], and the
    prediction carries the engine's probability and consequence for the
    reading. *)
Theorem trigger_accepted_predicts (feed : nat -> option sensor_data) (jitter : nat -> Q)
    (id : nat) (s : st) (ins : inspection) (rd : sensor_data) :
  (forall x, rejects s x = false) ->
  find_inspection id (inspections s) = Some ins -> ins_status ins = InProgress ->
  feed id = Some rd ->
  let (res, s') := trigger_sensor_poll_for_inspection feed jitter id s in
  exists r p, res = Ok (Some (r, p)) /\
    committed s' = committed s ++ [RSensor r; RPrediction p] /\
    sd_inspection_id r = id /\ recorded_by_id r = recording_user ins /\
    probability_of_failure p = calculate_pof rd /\
    consequence_of_failure p = calculate_cof rd (calculate_pof rd).
Proof.
  intros Hr Hf Hs Hd.
  pose proof (find_inspection_id _ _ _ Hf) as Hid.
  destruct s as [ins0 com rej nid fl ad nr lg]; simpl in Hr, Hf.
  unfold trigger_sensor_poll_for_inspection, db_open, db_close, bind, try_catch, ret, log,
    db_query_inspection.
  cbn -[predict find_inspection generate_ai_assessment sense].
  rewrite Hf, Hs. cbn -[predict find_inspection generate_ai_assessment sense].
  unfold sense. rewrite Hid, Hd. cbn -[predict find_inspection generate_ai_assessment].
  unfold generate_ai_assessment, bind, db_query_inspection. cbn -[predict find_inspection].
  rewrite Hf. cbn -[predict].
  pose proof (predict_accepted id (with_notes rd "Manual trigger") (recording_user ins)
                (jitter id)
                {| inspections := ins0; committed := com; rejects := rej; next_id := nid;
                   flushed := []; added := []; needs_rollback := false; logs := lg |}
                Hr eq_refl) as H.
  destruct (predict _ _ _ _ _) as [res s'].
  destruct H as (r & p & -> & Hrow & _ & Hp & Hc & Hcom & _).
  cbn [committed flushed added app] in Hcom.
  destruct (engine_with_notes rd "Manual trigger") as [Ep Ec].
  cbn. exists r, p. split; [reflexivity|]. split; [exact Hcom|].
  subst r. cbn. split; [reflexivity|]. split; [reflexivity|].
  rewrite Hp, Ep. split; [reflexivity|]. rewrite Hc, Ep, Ec. reflexivity.
Qed.

(** X12: the endpoint [POST /{inspection_id}/poll-sensors] answers 401
    without an authenticated user, and 403 for an inactive user or a role
    outside inspector, team_leader, engineer and admin.  For the other
    callers it answers 404 when the inspection does not exist and 400 when
    it exists, whatever its status: [inspection.status != 'in_progress']
    compares an [enum.Enum] member with a string, which is always unequal.
    It never reaches the trigger and commits nothing. *)
Theorem poll_endpoint_never_polls (feed : nat -> option sensor_data) (jitter : nat -> Q)
    (caller : option account) (id : nat) (s : st) :
  let (res, s') := poll_sensors_endpoint feed jitter caller id s in
  res = Ok (HttpError (match role_checker poll_roles caller with
                       | HttpError code => code
                       | Respond _ =>
                           match find_inspection id (inspections s) with
                           | None => 404 | Some _ => 400 end
                       end)) /\
  committed s' = committed s.
Proof.
  destruct s as [ins0 com rej nid fl ad nr lg].
  unfold poll_sensors_endpoint, db_open, db_close, bind, ret, db_query_inspection.
  destruct (role_checker poll_roles caller) as [u|code]; [|split; reflexivity].
  cbn -[find_inspection trigger_sensor_poll_for_inspection].
  destruct (find_inspection id ins0) as [i|]; [destruct (ins_status i)|]; split; reflexivity.
Qed.

(** ** The scheduler's threads *)

Lemma nth_error_set_nth_eq {A} (i : nat) (x : A) (l : list A) :
  (i < List.length l)%nat -> nth_error (Scheduler.set_nth i x l) i = Some x.
Proof.
  revert i. induction l as [|y l IH]; intros [|i] H; simpl in *; try lia; auto.
  apply IH. lia.
Qed.

Lemma nth_error_set_nth_neq {A} (i j : nat) (x : A) (l : list A) :
  i <> j -> nth_error (Scheduler.set_nth i x l) j = nth_error l j.
Proof.
  revert i j. induction l as [|y l IH]; intros [|i] [|j] H; simpl; try congruence; auto.
Qed.

Lemma in_set_nth {A} (i : nat) (x y : A) (l : list A) :
  In y (Scheduler.set_nth i x l) -> In y l \/ y = x.
Proof.
  revert i. induction l as [|z l IH]; intros [|i]; simpl; try tauto.
  - intros [->|H]; auto.
  - intros [->|H]; [auto|]. destruct (IH i H); auto.
Qed.

Lemma count_set_nth (i : nat) (x y : Scheduler.wpc) (l : list Scheduler.wpc) :
  nth_error l i = Some y ->
  (List.length (filter is_cycle (Scheduler.set_nth i x l)) + (if is_cycle y then 1 else 0)
   = List.length (filter is_cycle l) + (if is_cycle x then 1 else 0))%nat.
Proof.
  revert i. induction l as [|z l IH]; intros [|i] H; simpl in *; try discriminate.
  - injection H as ->. destruct (is_cycle x), (is_cycle y); simpl; lia.
  - specialize (IH i H). destruct (is_cycle z); simpl; lia.
Qed.

(** X13: in every reachable state of a scheduler, while [self.running] is
    true the thread recorded in [self.thread] has not returned from
    [_run]. *)
Theorem running_thread_alive (s : Scheduler.sched) :
  Scheduler.reachable s -> Scheduler.running s = true ->
  exists i pc, Scheduler.thread s = Some i /\ nth_error (Scheduler.workers s) i = Some pc /\
               pc <> Scheduler.WDone.
Proof.
  induction 1 as [|s s' Hr IH Hs]; intros Hrun; [discriminate|].
  destruct Hs as [s|s|s i pc Hi Hpc].
  - unfold Scheduler.start in *. destruct (Scheduler.running s) eqn:E; [cbn in *; apply IH; reflexivity|].
    cbn. exists (List.length (Scheduler.workers s)), Scheduler.WCheck.
    split; [reflexivity|]. split; [|discriminate].
    rewrite nth_error_app2 by lia. rewrite Nat.sub_diag. reflexivity.
  - unfold Scheduler.stop in *. destruct (Scheduler.running s) eqn:E; cbn in *; [discriminate|].
    congruence.
  - unfold Scheduler.worker_step in *. rewrite Hi in *. cbn in *.
    destruct (IH Hrun) as (j & pcj & Ht & Hj & Hd).
    exists j. rewrite Ht. destruct (Nat.eq_dec i j) as [->|Hne].
    + exists (Scheduler.worker_next true pc). rewrite Hrun.
      split; [reflexivity|]. split.
      * apply nth_error_set_nth_eq. apply nth_error_Some. congruence.
      * destruct pc; cbn; congruence.
    + exists pcj. rewrite nth_error_set_nth_neq by exact Hne. auto.
Qed.

(** X14: through [start_scheduler] and [stop_scheduler], a scheduler that
    [stop_scheduler] dropped keeps [running] false, so a step of any of its
    threads never brings one more thread into a poll cycle. *)
Theorem retired_never_polls_again (g : Global.sys) :
  Global.reachable g ->
  forall s, In s (Global.retired g) ->
  Scheduler.running s = false /\
  forall i, (Scheduler.polling (Scheduler.worker_step i s) <= Scheduler.polling s)%nat.
Proof.
  intros Hg.
  assert (Inv : forall s, In s (Global.retired g) -> Scheduler.running s = false).
  { induction Hg as [|g g' Hr IH Hs]; [intros ? []|].
    destruct Hs as [g|g|g s0 i pc Hc Hi Hpc|g k i]; intros s Hin.
    - unfold Global.start_scheduler in Hin.
      destruct (Global.current g); cbn in Hin; auto.
    - unfold Global.stop_scheduler in Hin.
      destruct (Global.current g) as [c|]; cbn in Hin; auto.
      destruct c as [[|] ws th]; cbn in Hin; destruct Hin as [<-|Hin]; auto.
    - apply IH. exact Hin.
    - cbn in Hin. unfold Global.map_nth in Hin.
      destruct (nth_error (Global.retired g) k) as [x|] eqn:Ek; [|auto].
      destruct (in_set_nth _ _ _ _ Hin) as [H| ->]; [auto|].
      unfold Scheduler.worker_step.
      assert (Hx : Scheduler.running x = false) by (apply IH; eapply nth_error_In; eauto).
      destruct (nth_error (Scheduler.workers x) i); exact Hx. }
  intros s Hin. specialize (Inv s Hin). split; [exact Inv|].
  intros i. unfold Scheduler.worker_step, Scheduler.polling.
  destruct (nth_error (Scheduler.workers s) i) as [pc|] eqn:E; [|lia].
  cbn [Scheduler.workers]. rewrite Inv.
  pose proof (count_set_nth i (Scheduler.worker_next false pc) pc _ E) as H.
  change (fun pc : Scheduler.wpc => match pc with Scheduler.WCycle => true | _ => false end)
    with is_cycle.
  destruct pc; cbn in H |- *; lia.
Qed.

(** ** The sensor simulator *)

Lemma generate_reading_known (mode p : string) (d : draw) :
  In p all_sensors -> exists v, generate_reading mode p d = Some v.
Proof.
  intros H. destruct d as [c r1 r2]. unfold generate_reading, generate_reading_as.
  simpl in H.
  repeat (destruct H as [<-|H]; [cbn -[format_value uniform];
    destruct (String.eqb mode "normal"); [eauto|];
    destruct (String.eqb mode "warning"); [eauto|];
    destruct (String.eqb mode "critical"); [eauto|];
    destruct c; cbn -[format_value uniform]; eauto|]).
  contradiction.
Qed.

Lemma baseline_unknown (p : string) : ~ In p all_sensors -> baseline_range p = None.
Proof.
  intros H. unfold baseline_range.
  repeat match goal with
         | |- context [String.eqb p ?k] =>
             destruct (String.eqb_spec p k) as [->|_]; [exfalso; apply H; simpl; tauto|]
         end.
  reflexivity.
Qed.

(** X15: [generate_reading] returns [None] exactly for the parameters that
    are not keys of [BASELINE_RANGES], in every mode: each [elif] chain of
    the warning and critical modes covers all six channels. *)
Theorem generate_reading_none_iff (mode p : string) (d : draw) :
  generate_reading mode p d = None <-> ~ In p all_sensors.
Proof.
  split.
  - intros H Hin. destruct (generate_reading_known mode p d Hin) as [v Hv]. congruence.
  - intros H. unfold generate_reading, generate_reading_as. rewrite baseline_unknown by exact H.
    reflexivity.
Qed.

Lemma full_reading_channels (mode : string) (draws : string -> draw) :
  exists a b c d e f,
    generate_full_reading mode draws
    = mk_sensor_data (Some a) (Some b) (Some c) (Some d) (Some e) (Some f) None.
Proof.
  unfold generate_full_reading.
  destruct (generate_reading_known mode "pressure" (draws "pressure"%string)) as [a Ha];
    [simpl; tauto|].
  destruct (generate_reading_known mode "temperature" (draws "temperature"%string)) as [b Hb];
    [simpl; tauto|].
  destruct (generate_reading_known mode "wall_thickness" (draws "wall_thickness"%string))
    as [c Hc]; [simpl; tauto|].
  destruct (generate_reading_known mode "corrosion_rate" (draws "corrosion_rate"%string))
    as [d Hd]; [simpl; tauto|].
  destruct (generate_reading_known mode "vibration" (draws "vibration"%string)) as [e He];
    [simpl; tauto|].
  destruct (generate_reading_known mode "flow_rate" (draws "flow_rate"%string)) as [f Hf];
    [simpl; tauto|].
  exists a, b, c, d, e, f. rewrite Ha, Hb, Hc, Hd, He, Hf. reflexivity.
Qed.

(** X16: when [simulate_sensor_data_for_inspection] draws a full reading
    ([random() < 0.8]), in any mode, all six channels are present and, with
    the jitter in [-5, 5], the confidence of the prediction is exactly
    95.00. *)
Theorem simulate_full_confidence (mode : string) (u : Q) (selected : list string)
    (draws : string -> draw) (v : Q) :
  (u < 8 # 10)%Q -> (-5 <= v <= 5)%Q ->
  channels_present (simulate_sensor_data_for_inspection mode u selected draws) = 6%nat /\
  calculate_confidence (simulate_sensor_data_for_inspection mode u selected draws) v = 9500.
Proof.
  intros Hu Hv. unfold simulate_sensor_data_for_inspection.
  assert (E : Qle_bool (8 # 10) u = false).
  { destruct (Qle_bool (8 # 10) u) eqn:E; [apply Qle_bool_iff in E; lra|reflexivity]. }
  rewrite E. cbn [negb].
  destruct (full_reading_channels mode draws) as (a & b & c & d & e & f & ->).
  split; [reflexivity|].
  rewrite calculate_confidence_base, (round2_comp _ _ (clamp_minmax _)).
  match goal with
  | |- context [spec_confidence_base_float ?x] =>
      let bse := eval vm_compute in (spec_confidence_base_float x) in
      assert (Hb : spec_confidence_base_float x = bse) by (vm_compute; reflexivity);
      rewrite Hb
  end.
  rewrite clamp_hi_b64 by lra. reflexivity.
Qed.

Lemma existsb_eqb_In (p : string) (l : list string) : existsb (String.eqb p) l = true <-> In p l.
Proof.
  rewrite existsb_exists. split.
  - intros (x & Hx & E). apply String.eqb_eq in E. subst. exact Hx.
  - intros H. exists p. split; [exact H|apply String.eqb_refl].
Qed.

(** X17: a partial reading has exactly as many channels as
    [random.sample] selected, for any selection of distinct channel names. *)
Theorem partial_reading_channels (mode : string) (selected : list string)
    (draws : string -> draw) :
  NoDup selected -> incl selected all_sensors ->
  channels_present (generate_partial_reading mode selected draws) = List.length selected.
Proof.
  intros Hnd Hinc.
  assert (Hk : forall p, In p all_sensors -> is_some (generate_reading mode p (draws p)) = true).
  { intros p Hp. destruct (generate_reading_known mode p (draws p) Hp) as [x ->]. reflexivity. }
  set (F := filter (fun p => existsb (String.eqb p) selected) all_sensors).
  assert (Hc : channels_present (generate_partial_reading mode selected draws) = List.length F).
  { unfold channels_present, generate_partial_reading, F. cbn -[generate_reading existsb String.eqb].
    repeat match goal with
           | |- context [existsb (String.eqb ?p) selected] =>
               destruct (existsb (String.eqb p) selected);
               [rewrite (Hk p) by (simpl; tauto)|]
           end; reflexivity. }
  rewrite Hc. apply Nat.le_antisymm.
  - apply NoDup_incl_length.
    + apply NoDup_filter. repeat constructor; simpl; intuition discriminate.
    + intros x Hx. unfold F in Hx. apply filter_In in Hx as [_ Hx].
      apply existsb_eqb_In. exact Hx.
  - apply NoDup_incl_length; [exact Hnd|].
    intros x Hx. unfold F. apply filter_In. split; [apply Hinc; exact Hx|].
    apply existsb_eqb_In. exact Hx.
Qed.

Lemma round_to_ge (sc : positive) (k : Z) x :
  (inject_Z k <= x * inject_Z (Zpos sc))%Q -> k <= round_to sc x.
Proof.
  intros H. unfold round_to.
  assert (Hk : k <= Qfloor (x * inject_Z (Zpos sc))).
  { rewrite <- (Qfloor_Z k). apply Qfloor_resp_le. exact H. }
  destruct (Qeq_bool _ _); [destruct (Z.even _)|destruct (Qle_bool _ _)]; lia.
Qed.

Lemma round_to_le (sc : positive) (k : Z) x :
  (x * inject_Z (Zpos sc) <= inject_Z k)%Q -> round_to sc x <= k.
Proof.
  intros H. unfold round_to.
  set (y := (x * inject_Z (Zpos sc))%Q) in *.
  assert (Hk : Qfloor y <= k).
  { rewrite <- (Qfloor_Z k). apply Qfloor_resp_le. exact H. }
  pose proof (Qfloor_le y) as Hf.
  destruct (Z.eq_dec (Qfloor y) k) as [E|E];
    [|destruct (Qeq_bool _ _); [destruct (Z.even _)|destruct (Qle_bool _ _)]; lia].
  assert (Hfr : (y - inject_Z (Qfloor y) <= 0)%Q) by (rewrite E in *; lra).
  assert (Hne : Qeq_bool (y - inject_Z (Qfloor y)) (1 # 2) = false).
  { destruct (Qeq_bool _ _) eqn:Q; [|reflexivity]. apply Qeq_bool_iff in Q. lra. }
  assert (Hle : Qle_bool (y - inject_Z (Qfloor y)) (1 # 2) = true).
  { apply Qle_bool_iff. lra. }
  rewrite Hne, Hle. lia.
Qed.

(** A value between two two-decimal bounds stays between them once
    formatted, with two or with four decimals. *)
Lemma format_bounds (p : string) (v : Q) (a b : Z) :
  (a # 100 <= v <= b # 100)%Q -> (a # 100 <= format_value p v <= b # 100)%Q.
Proof.
  intros [Ha Hb]. unfold format_value. destruct (String.eqb p "corrosion_rate").
  - assert (H1 : 100 * a <= round_to 10000 v).
    { apply round_to_ge. unfold Qle, Qmult, inject_Z in *. cbn [Qnum Qden] in *.
      rewrite ?Pos.mul_1_r in *. lia. }
    assert (H2 : round_to 10000 v <= 100 * b).
    { apply round_to_le. unfold Qle, Qmult, inject_Z in *. cbn [Qnum Qden] in *.
      rewrite ?Pos.mul_1_r in *. lia. }
    unfold Qle; cbn [Qnum Qden]; lia.
  - assert (H1 : a <= round_to 100 v).
    { apply round_to_ge. unfold Qle, Qmult, inject_Z in *. cbn [Qnum Qden] in *.
      rewrite ?Pos.mul_1_r in *. lia. }
    assert (H2 : round_to 100 v <= b).
    { apply round_to_le. unfold Qle, Qmult, inject_Z in *. cbn [Qnum Qden] in *.
      rewrite ?Pos.mul_1_r in *. lia. }
    unfold Qle; cbn [Qnum Qden]; lia.
Qed.

Lemma uniform_bounds (a b r : Q) :
  (a <= b)%Q -> (0 <= r <= 1)%Q -> (a <= uniform a b r <= b)%Q.
Proof.
  intros Hab [H0 H1]. unfold uniform.
  assert (0 <= (b - a) * r)%Q by (apply Qmult_le_0_compat; lra).
  assert (r * (b - a) <= 1 * (b - a))%Q by (apply Qmult_le_compat_r; lra).
  rewrite Qmult_comm in H2. lra.
Qed.

(** The value of the normal mode, [value + uniform(-0.05, 0.05) * value]. *)
Lemma normal_bounds (mn mx r1 r2 : Q) :
  (0 <= mn <= mx)%Q -> (0 <= r1 <= 1)%Q -> (0 <= r2 <= 1)%Q ->
  let x := uniform mn mx r1 in
  ((95 # 100) * mn <= x + uniform (-5 # 100) (5 # 100) r2 * x <= (105 # 100) * mx)%Q.
Proof.
  intros Hm H1 H2 x.
  pose proof (uniform_bounds mn mx r1 (proj2 Hm) H1) as Hx. fold x in Hx.
  pose proof (uniform_bounds (-5 # 100) (5 # 100) r2 ltac:(lra) H2) as Hu.
  set (u := uniform (-5 # 100) (5 # 100) r2) in *. clearbody x u.
  assert (u * x <= (5 # 100) * x)%Q by (apply Qmult_le_compat_r; lra).
  assert ((-5 # 100) * x <= u * x)%Q by (apply Qmult_le_compat_r; lra).
  lra.
Qed.

Lemma ge_below a q b t : (a <= q <= b)%Q -> Qle_bool (b64 t) (b64 a) = true -> ge q t = true.
Proof. intros [Ha _]. apply ge_lb, Ha. Qed.

Lemma ge_above a q b t : (a <= q <= b)%Q -> Qle_bool (b64 t) (b64 b) = false -> ge q t = false.
Proof. intros [_ Hb]. apply ge_ub, Hb. Qed.

Lemma le_above a q b t : (a <= q <= b)%Q -> Qle_bool (b64 b) (b64 t) = true -> le q t = true.
Proof. intros [_ Hb]. apply le_ub, Hb. Qed.

Lemma le_below a q b t : (a <= q <= b)%Q -> Qle_bool (b64 a) (b64 t) = false -> le q t = false.
Proof. intros [Ha _]. apply le_lb, Ha. Qed.

Lemma Qeq_bool_pos a q b : (a <= q <= b)%Q -> Qle_bool a 0 = false -> Qeq_bool q 0 = false.
Proof.
  intros [Ha _] H. destruct (Qeq_bool q 0) eqn:E; [|reflexivity].
  apply Qeq_bool_iff in E. assert (a <= 0)%Q by lra.
  apply Qle_bool_iff in H0. congruence.
Qed.

(** Settle each threshold test on a bounded value from its own bounds, and
    split on the tests the bounds leave open. *)
Ltac decide_channel_tests :=
  repeat match goal with
  | B : (_ <= ?q <= _)%Q |- context [ge ?q ?t] =>
      first [ rewrite (ge_below _ q _ t B) by (vm_compute; reflexivity)
            | rewrite (ge_above _ q _ t B) by (vm_compute; reflexivity)
            | destruct (ge q t) ]
  | B : (_ <= ?q <= _)%Q |- context [le ?q ?t] =>
      first [ rewrite (le_above _ q _ t B) by (vm_compute; reflexivity)
            | rewrite (le_below _ q _ t B) by (vm_compute; reflexivity)
            | destruct (le q t) ]
  | B : (_ <= ?q <= _)%Q |- context [Qeq_bool ?q 0] =>
      rewrite (Qeq_bool_pos _ q _ B) by reflexivity
  end.

(** The same, in the equation [H] of one channel score. *)
Ltac decide_tests_in H :=
  repeat match type of H with
  | context [ge ?q ?t] =>
      match goal with
      | B : (_ <= q <= _)%Q |- _ =>
          first [ rewrite (ge_below _ q _ t B) in H by (vm_compute; reflexivity)
                | rewrite (ge_above _ q _ t B) in H by (vm_compute; reflexivity)
                | destruct (ge q t) ]
      end
  | context [le ?q ?t] =>
      match goal with
      | B : (_ <= q <= _)%Q |- _ =>
          first [ rewrite (le_above _ q _ t B) in H by (vm_compute; reflexivity)
                | rewrite (le_below _ q _ t B) in H by (vm_compute; reflexivity)
                | destruct (le q t) ]
      end
  end.

(** The score functions unfolded, as equations. *)
Lemma pressure_score_unfold q : pressure_score q =
  if ge q 20 then 90 else if ge q 15 then 60 else if ge q 10 then 30 else 10.
Proof. reflexivity. Qed.
Lemma temperature_score_unfold q : temperature_score q =
  if ge q 120 then 85 else if ge q 100 then 55 else if ge q 80 then 25 else 5.
Proof. reflexivity. Qed.
Lemma wall_thickness_score_unfold q : wall_thickness_score q =
  if le q 5 then 95 else if le q 7 then 65 else if le q 10 then 35 else 15.
Proof. reflexivity. Qed.
Lemma corrosion_rate_score_unfold q : corrosion_rate_score q =
  if ge q (5 # 10) then 88 else if ge q (3 # 10) then 58
  else if ge q (1 # 10) then 28 else 8.
Proof. reflexivity. Qed.
Lemma vibration_score_unfold q : vibration_score q =
  if ge q (70 # 10) then 80 else if ge q (45 # 10) then 50
  else if ge q (28 # 10) then 20 else 5.
Proof. reflexivity. Qed.
Lemma flow_rate_score_unfold q : flow_rate_score q =
  if ge q 100 then 75 else if ge q 80 then 45 else if ge q 50 then 15 else 5.
Proof. reflexivity. Qed.

(** Replace the score [f q] of a bounded value [q] by the scores its bounds
    allow, one case per score. *)
Ltac settle_score f :=
  match goal with
  | B : (_ <= ?q <= _)%Q |- context [f ?q] =>
      let v := fresh "v" in
      let Ev := fresh "Ev" in
      remember (f q) as v eqn:Ev;
      rewrite ?pressure_score_unfold, ?temperature_score_unfold, ?wall_thickness_score_unfold,
        ?corrosion_rate_score_unfold, ?vibration_score_unfold, ?flow_rate_score_unfold in Ev;
      decide_tests_in Ev; cbv beta iota in Ev; subst v
  end.

Ltac settle_scores :=
  repeat first [ settle_score pressure_score | settle_score temperature_score
               | settle_score wall_thickness_score | settle_score corrosion_rate_score
               | settle_score vibration_score | settle_score flow_rate_score ].

(** Evaluate the engine on a reading whose channels are bounded values. *)
Ltac bounded_engine :=
  unfold calculate_cof;
  cbn [pressure temperature wall_thickness corrosion_rate vibration flow_rate truthy
       opt_test andb negb];
  decide_channel_tests;
  unfold calculate_pof, risk_scores, push;
  cbn [pressure temperature wall_thickness corrosion_rate vibration flow_rate app];
  settle_scores; vm_compute.

(** Replace the reading of channel [p] in the goal by a fresh value [q]
    with the bounds [a/100 <= q <= b/100], from the bounds [Hd] of the
    draws. *)
Ltac bound_channel Hd mode p a b :=
  match goal with
  | |- context [generate_reading mode p ?d] =>
    let t := eval cbv beta iota zeta delta [generate_reading generate_reading_as baseline_range
               warning_value critical_value option_map choice_name String.eqb Ascii.eqb
               Bool.eqb] in (generate_reading mode p d) in
    let E := fresh "E" in
    assert (E : generate_reading mode p d = t) by reflexivity;
    rewrite E; clear E;
    match t with
    | Some (format_value _ ?raw) =>
      let Hr := fresh "Hr" in
      let B := fresh "B" in
      let q := fresh "q" in
      assert (Hr : (a # 100 <= raw <= b # 100)%Q);
      [ first
          [ match raw with
            | (uniform ?mn ?mx ?r1 + uniform _ _ ?r2 * _)%Q =>
                destruct (Hd p) as [H1 H2];
                pose proof (normal_bounds mn mx r1 r2 ltac:(lra) H1 H2); cbv zeta in *; lra
            end
          | pose proof (Hd p) as H1; unfold uniform; lra ]
      | pose proof (format_bounds p raw a b Hr) as B;
        set (q := format_value p raw) in *; clearbody q; clear Hr ]
    end
  end.

(** X18: in the critical mode, when every [random()] draw lies in [0, 1], a
    full reading scores a probability of failure of 95.00, a critical
    consequence and a critical priority (the wall thickness, drawn in
    [4.0, 5.5], may miss the critical 5 mm band, which does not change the
    outcome). *)
Theorem critical_mode_full_reading (draws : string -> draw) :
  (forall p, 0 <= d_value (draws p) <= 1)%Q ->
  let sd := generate_full_reading "critical" draws in
  calculate_pof sd = 9500 /\
  calculate_cof sd (calculate_pof sd) = Critical /\
  snd (generate_recommendation (calculate_pof sd) (calculate_cof sd (calculate_pof sd))) = Critical.
Proof.
  intros Hd. cbv zeta. unfold generate_full_reading.
  bound_channel Hd "critical"%string "pressure"%string 2000 2500.
  bound_channel Hd "critical"%string "temperature"%string 12000 13500.
  bound_channel Hd "critical"%string "wall_thickness"%string 400 550.
  bound_channel Hd "critical"%string "corrosion_rate"%string 50 70.
  bound_channel Hd "critical"%string "vibration"%string 700 900.
  bound_channel Hd "critical"%string "flow_rate"%string 10000 12000.
  bounded_engine; auto.
Qed.

(** X19: in the normal mode, when every [random()] draw lies in [0, 1], a
    full reading scores a probability of failure in [8.00, 25.50], a low
    consequence and a low priority, although the 5% variation can push a
    value past its safe threshold. *)
Theorem normal_mode_full_reading (draws : string -> draw) :
  (forall p, 0 <= d_value (draws p) <= 1 /\ 0 <= d_variation (draws p) <= 1)%Q ->
  let sd := generate_full_reading "normal" draws in
  800 <= calculate_pof sd <= 2550 /\
  calculate_cof sd (calculate_pof sd) = Low /\
  snd (generate_recommendation (calculate_pof sd) (calculate_cof sd (calculate_pof sd))) = Low.
Proof.
  intros Hd. cbv zeta. unfold generate_full_reading.
  bound_channel Hd "normal"%string "pressure"%string 760 1260.
  bound_channel Hd "normal"%string "temperature"%string 6650 8925.
  bound_channel Hd "normal"%string "wall_thickness"%string 855 1260.
  bound_channel Hd "normal"%string "corrosion_rate"%string 4 16.
  bound_channel Hd "normal"%string "vibration"%string 142 315.
  bound_channel Hd "normal"%string "flow_rate"%string 3800 6300.
  bounded_engine; repeat split; first [reflexivity | discriminate].
Qed.

(** X20: in the warning mode, when every [random()] draw lies in [0, 1], a
    full reading scores a probability of failure in [25.50, 55.50], a low
    consequence and a low or medium priority: no warning-mode value reaches
    a critical band. *)
Theorem warning_mode_full_reading (draws : string -> draw) :
  (forall p, 0 <= d_value (draws p) <= 1)%Q ->
  let sd := generate_full_reading "warning" draws in
  2550 <= calculate_pof sd <= 5550 /\
  calculate_cof sd (calculate_pof sd) = Low /\
  (snd (generate_recommendation (calculate_pof sd) (calculate_cof sd (calculate_pof sd))) = Low \/
   snd (generate_recommendation (calculate_pof sd) (calculate_cof sd (calculate_pof sd))) = Medium).
Proof.
  intros Hd. cbv zeta. unfold generate_full_reading.
  bound_channel Hd "warning"%string "pressure"%string 1400 1700.
  bound_channel Hd "warning"%string "temperature"%string 9500 10500.
  bound_channel Hd "warning"%string "wall_thickness"%string 700 850.
  bound_channel Hd "warning"%string "corrosion_rate"%string 25 35.
  bound_channel Hd "warning"%string "vibration"%string 400 550.
  bound_channel Hd "warning"%string "flow_rate"%string 7500 8500.
  bounded_engine; repeat split;
    first [reflexivity | discriminate | (left; reflexivity) | (right; reflexivity)].
Qed.

(** ** Witnesses of the further properties at concrete inputs *)

Lemma bucket_scores_monotone_witness :
  (9 <= 21)%Q /\ pressure_score 9 <= pressure_score 21 /\
  wall_thickness_score 21 <= wall_thickness_score 9.
Proof.
  assert (H : (9 <= 21)%Q) by (vm_compute; discriminate).
  destruct (bucket_scores_monotone 9 21 H) as (Hp & _ & _ & _ & _ & Hw).
  split; [exact H|split; [exact Hp|exact Hw]].
Defined.

Lemma calculate_cof_monotone_pof_witness :
  5000 <= 9000 /\
  level_rank (calculate_cof reading_critical 5000) <= level_rank (calculate_cof reading_critical 9000).
Proof.
  split; [lia|]. apply calculate_cof_monotone_pof. lia.
Defined.

Lemma generate_recommendation_monotone_witness :
  5000 <= 9000 /\
  level_rank (snd (generate_recommendation 5000 Medium))
    <= level_rank (snd (generate_recommendation 9000 Medium)).
Proof.
  split; [lia|]. apply (generate_recommendation_monotone 5000 9000 Medium). lia.
Defined.

Lemma calculate_confidence_edges_witness :
  (-5 <= 2 <= 5)%Q /\ channels_present reading_critical = 6%nat /\
  calculate_confidence reading_critical 2 = 9500.
Proof.
  assert (Hv : (-5 <= 2 <= 5)%Q) by (split; vm_compute; discriminate).
  assert (H6 : channels_present reading_critical = 6%nat) by reflexivity.
  split; [exact Hv|split; [exact H6|]].
  exact (proj1 (calculate_confidence_edges reading_critical 2 Hv) H6).
Defined.

Lemma critical_band_reading_witness :
  (20 <= 22)%Q /\ (120 <= 125)%Q /\ (45 # 10 <= 5)%Q /\ (5 # 10 <= 6 # 10)%Q /\
  (7 <= 8)%Q /\ (100 <= 110)%Q /\
  calculate_pof reading_critical = 9500 /\
  calculate_cof reading_critical (calculate_pof reading_critical) = Critical.
Proof.
  assert (H1 : (20 <= 22)%Q) by (vm_compute; discriminate).
  assert (H2 : (120 <= 125)%Q) by (vm_compute; discriminate).
  assert (H3 : (45 # 10 <= 5)%Q) by (vm_compute; discriminate).
  assert (H4 : (5 # 10 <= 6 # 10)%Q) by (vm_compute; discriminate).
  assert (H5 : (7 <= 8)%Q) by (vm_compute; discriminate).
  assert (H6 : (100 <= 110)%Q) by (vm_compute; discriminate).
  destruct (critical_band_reading 22 125 (45 # 10) (6 # 10) 8 110 None H1 H2 H3 H4 H5 H6)
    as (Hp & Hc & _).
  repeat split; assumption.
Defined.

Lemma safe_band_reading_witness :
  (9 <= 999 # 100)%Q /\ (70 <= 7999 # 100)%Q /\ (1001 # 100 <= 11)%Q /\
  (5 # 100 <= 999 # 10000)%Q /\ (2 <= 279 # 100)%Q /\ (40 <= 4999 # 100)%Q /\
  calculate_pof (mk_sensor_data (Some 9%Q) (Some 70%Q) (Some 11%Q) (Some (5 # 100))
                                (Some 2%Q) (Some 40%Q) None) = 800.
Proof.
  assert (H1 : (9 <= 999 # 100)%Q) by (vm_compute; discriminate).
  assert (H2 : (70 <= 7999 # 100)%Q) by (vm_compute; discriminate).
  assert (H3 : (1001 # 100 <= 11)%Q) by (vm_compute; discriminate).
  assert (H4 : (5 # 100 <= 999 # 10000)%Q) by (vm_compute; discriminate).
  assert (H5 : (2 <= 279 # 100)%Q) by (vm_compute; discriminate).
  assert (H6 : (40 <= 4999 # 100)%Q) by (vm_compute; discriminate).
  repeat (split; [assumption|]).
  exact (proj1 (safe_band_reading 9 70 11 (5 # 100) 2 40 None H1 H2 H3 H4 H5 H6)).
Defined.

Lemma poll_accepted_predicts_each_witness :
  (forall x, rejects st_demo x = false) /\
  prediction_ids (committed (snd (poll_sensors_and_predict feed_critical jitter_zero st_demo)))
    = [1%nat].
Proof.
  assert (H : forall x, rejects st_demo x = false) by reflexivity.
  split; [exact H|].
  rewrite (poll_accepted_predicts_each feed_critical jitter_zero st_demo H).
  vm_compute. reflexivity.
Defined.

Lemma trigger_accepted_predicts_witness :
  (forall x, rejects st_demo x = false) /\
  find_inspection 1 (inspections st_demo) = Some (mk_inspection 1 InProgress (Some 2%nat) 10) /\
  exists r p,
    fst (trigger_sensor_poll_for_inspection feed_critical jitter_zero 1 st_demo)
      = Ok (Some (r, p)) /\
    recorded_by_id r = 2%nat /\
    probability_of_failure p = calculate_pof reading_critical.
Proof.
  assert (H1 : forall x, rejects st_demo x = false) by reflexivity.
  assert (H2 : find_inspection 1 (inspections st_demo)
               = Some (mk_inspection 1 InProgress (Some 2%nat) 10)) by reflexivity.
  assert (H3 : ins_status (mk_inspection 1 InProgress (Some 2%nat) 10) = InProgress)
    by reflexivity.
  assert (H4 : feed_critical 1 = Some reading_critical) by reflexivity.
  pose proof (trigger_accepted_predicts feed_critical jitter_zero 1 st_demo _ _ H1 H2 H3 H4)
    as H.
  split; [exact H1|split; [exact H2|]].
  destruct (trigger_sensor_poll_for_inspection feed_critical jitter_zero 1 st_demo)
    as [res s'].
  destruct H as (r & p & Hres & _ & _ & Hu & Hp & _).
  exists r, p. split; [exact Hres|split; [exact Hu|exact Hp]].
Defined.

Lemma running_thread_alive_witness :
  Scheduler.reachable (fst (Scheduler.start Scheduler.init)) /\
  Scheduler.running (fst (Scheduler.start Scheduler.init)) = true /\
  exists i pc, Scheduler.thread (fst (Scheduler.start Scheduler.init)) = Some i /\
    nth_error (Scheduler.workers (fst (Scheduler.start Scheduler.init))) i = Some pc /\
    pc <> Scheduler.WDone.
Proof.
  assert (H1 : Scheduler.reachable (fst (Scheduler.start Scheduler.init)))
    by (apply (Scheduler.reach_step Scheduler.init); [apply Scheduler.reach_init|
                                                      apply Scheduler.step_start]).
  assert (H2 : Scheduler.running (fst (Scheduler.start Scheduler.init)) = true)
    by reflexivity.
  split; [exact H1|split; [exact H2|]].
  exact (running_thread_alive _ H1 H2).
Defined.

Lemma retired_never_polls_again_witness :
  let g := fst (Global.stop_scheduler (fst (Global.start_scheduler Global.init))) in
  let s := fst (Scheduler.stop (fst (Scheduler.start Scheduler.init))) in
  Global.reachable g /\ In s (Global.retired g) /\
  Scheduler.running s = false /\
  (Scheduler.polling (Scheduler.worker_step 0 s) <= Scheduler.polling s)%nat.
Proof.
  intros g s.
  assert (H1 : Global.reachable g).
  { apply (Global.greach_step (fst (Global.start_scheduler Global.init))).
    - apply (Global.greach_step Global.init); [apply Global.greach_init|apply Global.gstep_start].
    - apply Global.gstep_stop. }
  assert (H2 : In s (Global.retired g)) by (left; reflexivity).
  destruct (retired_never_polls_again g H1 s H2) as [Hr Hp].
  split; [exact H1|split; [exact H2|split; [exact Hr|apply Hp]]].
Defined.

Lemma simulate_full_confidence_witness :
  (1 # 2 < 8 # 10)%Q /\ (-5 <= 0 <= 5)%Q /\
  calculate_confidence (simulate_sensor_data_for_inspection "random" (1 # 2) [] draws_half) 0
    = 9500.
Proof.
  assert (Hu : (1 # 2 < 8 # 10)%Q) by reflexivity.
  assert (Hv : (-5 <= 0 <= 5)%Q) by (split; vm_compute; discriminate).
  split; [exact Hu|split; [exact Hv|]].
  exact (proj2 (simulate_full_confidence "random" (1 # 2) [] draws_half 0 Hu Hv)).
Defined.

Lemma partial_reading_channels_witness :
  NoDup ["pressure"; "vibration"]%string /\ incl ["pressure"; "vibration"]%string all_sensors /\
  channels_present (generate_partial_reading "random" ["pressure"; "vibration"]%string draws_half)
    = 2%nat.
Proof.
  assert (H1 : NoDup ["pressure"; "vibration"]%string).
  { constructor; [intros [H|[]]; discriminate H|].
    constructor; [intros []|constructor]. }
  assert (H2 : incl ["pressure"; "vibration"]%string all_sensors).
  { intros x [<-|[<-|[]]]; simpl; auto 7. }
  split; [exact H1|split; [exact H2|]].
  exact (partial_reading_channels "random" _ draws_half H1 H2).
Defined.

Lemma critical_mode_full_reading_witness :
  (forall p, 0 <= d_value (draws_half p) <= 1)%Q /\
  calculate_pof (generate_full_reading "critical" draws_half) = 9500.
Proof.
  assert (H : (forall p, 0 <= d_value (draws_half p) <= 1)%Q)
    by (intros p; split; vm_compute; discriminate).
  split; [exact H|].
  exact (proj1 (critical_mode_full_reading draws_half H)).
Defined.

Lemma normal_mode_full_reading_witness :
  (forall p, 0 <= d_value (draws_half p) <= 1 /\ 0 <= d_variation (draws_half p) <= 1)%Q /\
  calculate_cof (generate_full_reading "normal" draws_half)
    (calculate_pof (generate_full_reading "normal" draws_half)) = Low.
Proof.
  assert (H : (forall p, 0 <= d_value (draws_half p) <= 1 /\
                         0 <= d_variation (draws_half p) <= 1)%Q)
    by (intros p; split; split; vm_compute; discriminate).
  split; [exact H|].
  exact (proj1 (proj2 (normal_mode_full_reading draws_half H))).
Defined.

Lemma warning_mode_full_reading_witness :
  (forall p, 0 <= d_value (draws_half p) <= 1)%Q /\
  calculate_cof (generate_full_reading "warning" draws_half)
    (calculate_pof (generate_full_reading "warning" draws_half)) = Low.
Proof.
  assert (H : (forall p, 0 <= d_value (draws_half p) <= 1)%Q)
    by (intros p; split; vm_compute; discriminate).
  split; [exact H|].
  exact (proj1 (proj2 (warning_mode_full_reading draws_half H))).
Defined.

(** ** Rounding, the schedulers and monotonicity *)

Lemma round_to_close (sc : positive) (x : Q) :
  (- (1 # 2) <= inject_Z (round_to sc x) - x * inject_Z (Zpos sc) <= 1 # 2)%Q.
Proof.
  unfold round_to.
  set (y := (x * inject_Z (Zpos sc))%Q).
  pose proof (Qfloor_le y) as H1. pose proof (Qlt_floor y) as H2.
  set (fl := Qfloor y) in *.
  rewrite inject_Z_plus in H2. change (inject_Z 1) with 1%Q in H2.
  destruct (Qeq_bool (y - inject_Z fl) (1 # 2)) eqn:E1.
  - apply Qeq_bool_iff in E1.
    destruct (Z.even fl); [|rewrite inject_Z_plus; change (inject_Z 1) with 1%Q]; lra.
  - destruct (Qle_bool (y - inject_Z fl) (1 # 2)) eqn:E2.
    + apply Qle_bool_iff in E2. lra.
    + assert (E3 : ~ (y - inject_Z fl <= 1 # 2)%Q)
        by (intros E; apply Qle_bool_iff in E; congruence).
      apply Qnot_le_lt in E3. rewrite inject_Z_plus. change (inject_Z 1) with 1%Q. lra.
Qed.

Lemma round_to_mono (sc : positive) (x y : Q) : (x <= y)%Q -> round_to sc x <= round_to sc y.
Proof.
  intros H. unfold round_to.
  set (a := (x * inject_Z (Zpos sc))%Q). set (b := (y * inject_Z (Zpos sc))%Q).
  assert (Hab : (a <= b)%Q).
  { unfold a, b. apply Qmult_le_compat_r; [exact H|]. unfold Qle; simpl; lia. }
  pose proof (Qfloor_resp_le a b Hab) as Hf.
  pose proof (Qfloor_le a) as Ha1. pose proof (Qlt_floor a) as Ha2.
  pose proof (Qfloor_le b) as Hb1. pose proof (Qlt_floor b) as Hb2.
  set (fa := Qfloor a) in *. set (fb := Qfloor b) in *.
  destruct (Z.eq_dec fa fb) as [Efab|Nfab].
  2:{ destruct (Qeq_bool _ _); [destruct (Z.even fa)|destruct (Qle_bool _ _)];
      destruct (Qeq_bool _ _); try destruct (Z.even fb); try destruct (Qle_bool _ _); lia. }
  rewrite <- Efab in *. clearbody fa fb. clear Hb2 Ha2 Hf.
  destruct (Qeq_bool (a - inject_Z fa) (1 # 2)) eqn:E1;
  destruct (Qle_bool (a - inject_Z fa) (1 # 2)) eqn:E2;
  destruct (Qeq_bool (b - inject_Z fa) (1 # 2)) eqn:E3;
  destruct (Qle_bool (b - inject_Z fa) (1 # 2)) eqn:E4;
  try destruct (Z.even fa); try lia;
  exfalso;
  repeat match goal with
  | E : Qeq_bool _ _ = true |- _ => apply Qeq_bool_iff in E
  | E : Qeq_bool _ _ = false |- _ => apply Qeq_bool_neq in E
  | E : Qle_bool _ _ = true |- _ => apply Qle_bool_iff in E
  | E : Qle_bool _ _ = false |- _ =>
      let F := fresh in
      assert (F : ~ (Qle_bool _ _ = true)) by (rewrite E; discriminate);
      rewrite Qle_bool_iff in F; apply Qnot_le_lt in F; clear E
  end;
  try lra;
  match goal with
  | E : ~ (?u == 1 # 2)%Q, F : (?u <= 1 # 2)%Q |- _ =>
      destruct (Qle_lt_or_eq _ _ F); [lra|contradiction]
  end.
Qed.

(** X22: the formatted simulator value is within half a unit of the last
    kept decimal of the raw value: 0.005, or 0.00005 for the corrosion
    rate. *)
Theorem format_value_close (p : string) (v : Q) :
  let h := if String.eqb p "corrosion_rate" then (1 # 20000)%Q else (1 # 200)%Q in
  (v - h <= format_value p v <= v + h)%Q.
Proof.
  cbv zeta. unfold format_value.
  destruct (String.eqb p "corrosion_rate").
  - pose proof (round_to_close 10000 v) as H.
    assert (Hq : ((round_to 10000 v # 10000) * 10000 == inject_Z (round_to 10000 v))%Q)
      by (unfold Qeq, Qmult, inject_Z; cbn [Qnum Qden]; lia).
    change (inject_Z (Zpos 10000)) with 10000%Q in H. lra.
  - pose proof (round_to_close 100 v) as H.
    assert (Hq : ((round_to 100 v # 100) * 100 == inject_Z (round_to 100 v))%Q)
      by (unfold Qeq, Qmult, inject_Z; cbn [Qnum Qden]; lia).
    change (inject_Z (Zpos 100)) with 100%Q in H. lra.
Qed.

Lemma length_set_nth {A} (i : nat) (x : A) (l : list A) :
  List.length (Scheduler.set_nth i x l) = List.length l.
Proof.
  revert i. induction l as [|y l IH]; intros [|i]; simpl; auto.
Qed.

Lemma worker_step_shape (i : nat) (s : Scheduler.sched) :
  Scheduler.running (Scheduler.worker_step i s) = Scheduler.running s /\
  List.length (Scheduler.workers (Scheduler.worker_step i s)) = List.length (Scheduler.workers s) /\
  Scheduler.thread (Scheduler.worker_step i s) = Scheduler.thread s.
Proof.
  unfold Scheduler.worker_step. destruct (nth_error _ i); simpl; auto.
  rewrite length_set_nth. auto.
Qed.

Lemma In_map_nth {A} (f : A -> A) (k : nat) (l : list A) (x : A) :
  In x (Global.map_nth f k l) -> In x l \/ exists y, In y l /\ x = f y.
Proof.
  unfold Global.map_nth. destruct (nth_error l k) as [y|] eqn:E; [|auto].
  intros H. apply in_set_nth in H. destruct H as [H|H]; [auto|].
  subst. right. exists y. split; [eapply nth_error_In; eauto|reflexivity].
Qed.

(** X24: through [start_scheduler] and [stop_scheduler], every scheduler
    instance has started exactly one worker thread: the current instance is
    running with [self.thread] its only thread, and every instance
    [stop_scheduler] dropped is stopped. *)
Theorem global_instances_single_worker (g : Global.sys) :
  Global.reachable g ->
  (forall s, Global.current g = Some s ->
     Scheduler.running s = true /\ List.length (Scheduler.workers s) = 1%nat /\
     Scheduler.thread s = Some 0%nat) /\
  (forall s, In s (Global.retired g) ->
     Scheduler.running s = false /\ List.length (Scheduler.workers s) = 1%nat).
Proof.
  induction 1 as [|g g' _ [IHc IHr] Hs].
  - split; [discriminate|intros s []].
  - destruct Hs as [g|g|g s i pc Hc Hi Hpc|g k i]; simpl.
    + unfold Global.start_scheduler.
      destruct (Global.current g) as [s0|] eqn:Ec; simpl;
        [split; [intros s Hs; apply IHc; congruence|exact IHr]|].
      split; [|exact IHr]. intros s [= <-]. repeat split.
    + unfold Global.stop_scheduler.
      destruct (Global.current g) as [s0|] eqn:Ec; simpl;
        [|split; [intros s Hs; apply IHc; congruence|exact IHr]].
      destruct (IHc s0 eq_refl) as (Hr & Hl & _).
      destruct (Scheduler.stop s0) as [s1 lg] eqn:Est. simpl.
      unfold Scheduler.stop in Est. rewrite Hr in Est. simpl in Est.
      injection Est as <- _.
      split; [discriminate|]. intros s [<-|Hin]; [|exact (IHr s Hin)].
      split; [reflexivity|exact Hl].
    + split; [|exact IHr]. intros s' [= <-].
      destruct (IHc s Hc) as (Hr & Hl & Ht).
      destruct (worker_step_shape i s) as (-> & -> & ->). auto.
    + split; [exact IHc|]. intros s Hin.
      apply In_map_nth in Hin. destruct Hin as [Hin|(y & Hin & ->)]; [exact (IHr s Hin)|].
      destruct (IHr y Hin) as (Hr & Hl).
      destruct (worker_step_shape i y) as (-> & -> & _). auto.
Qed.

Lemma worker_step_at (i : nat) (s : Scheduler.sched) (pc : Scheduler.wpc) :
  nth_error (Scheduler.workers s) i = Some pc ->
  nth_error (Scheduler.workers (Scheduler.worker_step i s)) i
    = Some (Scheduler.worker_next (Scheduler.running s) pc) /\
  Scheduler.running (Scheduler.worker_step i s) = Scheduler.running s.
Proof.
  intros H. unfold Scheduler.worker_step. rewrite H. simpl. split; [|reflexivity].
  apply nth_error_set_nth_eq. apply nth_error_Some. congruence.
Qed.

(** X25: once an instance is stopped, each of its worker threads leaves
    [_run] within three of its own steps, from wherever it is in the loop:
    in a poll cycle, before or in [time.sleep], or at the loop test. *)
Theorem stopped_worker_finishes (s : Scheduler.sched) (i : nat) :
  Scheduler.running s = false -> (i < List.length (Scheduler.workers s))%nat ->
  nth_error (Scheduler.workers
    (Scheduler.worker_step i (Scheduler.worker_step i (Scheduler.worker_step i s)))) i
    = Some Scheduler.WDone.
Proof.
  intros Hr Hi. apply nth_error_Some in Hi.
  destruct (nth_error (Scheduler.workers s) i) as [pc|] eqn:E; [|contradiction].
  destruct (worker_step_at i s pc E) as [E1 R1]. rewrite Hr in E1.
  destruct (worker_step_at _ _ _ E1) as [E2 R2]. rewrite R1, Hr in E2.
  destruct (worker_step_at _ _ _ E2) as [E3 R3]. rewrite R2, R1, Hr in E3.
  rewrite E3. destruct pc; reflexivity.
Qed.

Ltac unfold_simulator :=
  cbv beta iota zeta delta [generate_reading generate_reading_as baseline_range
    warning_value critical_value option_map choice_name String.eqb Ascii.eqb Bool.eqb].

(** X26: with a [random()] draw in [0, 1], every reading of the warning mode
    lies in the range of the warning branch of its parameter, and every
    reading of the critical mode in that of its critical branch: the
    rounding to 2 (or 4) decimals never leaves the range. *)
Theorem mode_reading_in_range (p : string) (d : draw) (v : Q) :
  (0 <= d_value d <= 1)%Q ->
  (generate_reading "warning" p d = Some v ->
     exists lo hi, warning_value p 0 = Some lo /\ warning_value p 1 = Some hi /\
                   (lo <= v <= hi)%Q) /\
  (generate_reading "critical" p d = Some v ->
     exists lo hi, critical_value p 0 = Some lo /\ critical_value p 1 = Some hi /\
                   (lo <= v <= hi)%Q).
Proof.
  intros Hd.
  destruct (in_dec string_dec p all_sensors) as [Hin|Hout].
  2:{ assert (Hb := baseline_unknown p Hout).
      unfold generate_reading, generate_reading_as. rewrite Hb. split; discriminate. }
  assert (Hf : forall (a b : Z) raw, (a # 100 <= raw <= b # 100)%Q ->
                 (a # 100 <= format_value p raw <= b # 100)%Q)
    by (intros; apply format_bounds; assumption).
  simpl in Hin.
  destruct Hin as [<-|[<-|[<-|[<-|[<-|[<-|[]]]]]]];
    split; unfold_simulator; intros [= <-]; do 2 eexists; (split; [reflexivity|]);
    (split; [reflexivity|]); unfold uniform in *;
    match goal with
    | |- (?lo' <= format_value _ ?raw <= ?hi')%Q =>
        first
          [ pose proof (Hf 1400 1700 raw ltac:(lra)) | pose proof (Hf 9500 10500 raw ltac:(lra))
          | pose proof (Hf 700 850 raw ltac:(lra)) | pose proof (Hf 25 35 raw ltac:(lra))
          | pose proof (Hf 400 550 raw ltac:(lra)) | pose proof (Hf 7500 8500 raw ltac:(lra))
          | pose proof (Hf 2000 2500 raw ltac:(lra)) | pose proof (Hf 12000 13500 raw ltac:(lra))
          | pose proof (Hf 400 550 raw ltac:(lra)) | pose proof (Hf 50 70 raw ltac:(lra))
          | pose proof (Hf 700 900 raw ltac:(lra)) | pose proof (Hf 10000 12000 raw ltac:(lra)) ];
        lra
    end.
Qed.

Lemma round2_mono (x y : Q) : (x <= y)%Q -> round2 x <= round2 y.
Proof. exact (round_to_mono 100 x y). Qed.

Lemma clamp_conf_mono (a b : Q) :
  (a <= b)%Q -> (Qmax 30 (Qmin 95 a) <= Qmax 30 (Qmin 95 b))%Q.
Proof.
  intros H. apply Q.max_le_compat_l. apply Q.min_le_compat_l. exact H.
Qed.

Lemma filter_id_mono (l1 l2 : list bool) :
  Forall2 (fun a b => implb a b = true) l1 l2 ->
  (List.length (filter (fun b => b) l1) <= List.length (filter (fun b => b) l2))%nat.
Proof.
  induction 1 as [|a b l1 l2 Hab _ IH]; simpl; [lia|].
  destruct a, b; simpl in *; try discriminate; lia.
Qed.

(** The [float] base confidences, one per count of channels and penalty,
    never decrease with the count nor when the penalty is lifted. *)
Lemma conf_base_mono (n1 n2 : nat) (p1 p2 : bool) :
  (n1 <= n2 <= 6)%nat -> (p2 = true -> p1 = true) ->
  let b1 := b64 (b64 (inject_Z (Z.of_nat n1) / inject_Z 6) * 100) in
  let b2 := b64 (b64 (inject_Z (Z.of_nat n2) / inject_Z 6) * 100) in
  ((if p1 then b64 (b1 * b64 (8 # 10)) else b1)
   <= (if p2 then b64 (b2 * b64 (8 # 10)) else b2))%Q.
Proof.
  intros [H12 H2] Hp. cbv zeta. apply Qle_bool_iff.
  destruct n1 as [|[|[|[|[|[|[|n1]]]]]]]; destruct n2 as [|[|[|[|[|[|[|n2]]]]]]];
    try lia; destruct p1, p2; try (specialize (Hp eq_refl); discriminate);
    vm_compute; reflexivity.
Qed.

(** X27: with the same variance, a reading with more channels present never
    gets a lower confidence score. *)
Theorem calculate_confidence_more_channels (sd1 sd2 : sensor_data) (v : Q) :
  channels_incl sd1 sd2 = true -> calculate_confidence sd1 v <= calculate_confidence sd2 v.
Proof.
  intros H. unfold calculate_confidence. cbv zeta.
  apply round2_mono, clamp_conf_mono, b64_mono, Qplus_le_l.
  unfold channels_incl in H.
  repeat rewrite andb_true_iff in H.
  destruct H as (((((H1 & H2) & H3) & H4) & H5) & H6).
  assert (Hn := filter_id_mono
    [is_some (pressure sd1); is_some (temperature sd1); is_some (wall_thickness sd1);
     is_some (corrosion_rate sd1); is_some (vibration sd1); is_some (flow_rate sd1)]
    [is_some (pressure sd2); is_some (temperature sd2); is_some (wall_thickness sd2);
     is_some (corrosion_rate sd2); is_some (vibration sd2); is_some (flow_rate sd2)]
    ltac:(repeat constructor; assumption)).
  set (n1 := List.length (filter _ [is_some (pressure sd1); _; _; _; _; _])) in *.
  set (n2 := List.length (filter _ [is_some (pressure sd2); _; _; _; _; _])) in *.
  assert (Hn6 : (n2 <= 6)%nat).
  { unfold n2. destruct (is_some (pressure sd2)), (is_some (temperature sd2)),
      (is_some (wall_thickness sd2)), (is_some (corrosion_rate sd2)),
      (is_some (vibration sd2)), (is_some (flow_rate sd2)); simpl; lia. }
  apply conf_base_mono; [lia|].
  destruct (is_some (wall_thickness sd1)), (is_some (wall_thickness sd2)),
    (is_some (corrosion_rate sd1)), (is_some (corrosion_rate sd2));
    simpl in H3, H4 |- *; try discriminate; auto.
Qed.

Lemma push_mono_up (f : Q -> Z) (o1 o2 : option Q) (acc1 acc2 : list Z) :
  (forall a b, (a <= b)%Q -> f a <= f b) -> opt_le o1 o2 -> Forall2 Z.le acc1 acc2 ->
  Forall2 Z.le (push o1 f acc1) (push o2 f acc2).
Proof.
  intros Hf Ho Ha. destruct o1, o2; simpl in *; try contradiction; [|exact Ha].
  apply Forall2_app; [exact Ha|]. constructor; [apply Hf, Ho|constructor].
Qed.

Lemma push_mono_down (f : Q -> Z) (o1 o2 : option Q) (acc1 acc2 : list Z) :
  (forall a b, (b <= a)%Q -> f a <= f b) -> opt_le o2 o1 -> Forall2 Z.le acc1 acc2 ->
  Forall2 Z.le (push o1 f acc1) (push o2 f acc2).
Proof.
  intros Hf Ho Ha. destruct o1, o2; simpl in *; try contradiction; [|exact Ha].
  apply Forall2_app; [exact Ha|]. constructor; [apply Hf, Ho|constructor].
Qed.

Lemma risk_scores_mono (sd1 sd2 : sensor_data) :
  reading_le sd1 sd2 -> Forall2 Z.le (risk_scores sd1) (risk_scores sd2).
Proof.
  intros (Hp & Ht & Hw & Hc & Hv & Hf). unfold risk_scores.
  apply push_mono_up; [intros a b H; apply (scores_monotone a b H)|exact Hf|].
  apply push_mono_up; [intros a b H; apply (scores_monotone a b H)|exact Hv|].
  apply push_mono_up; [intros a b H; apply (scores_monotone a b H)|exact Hc|].
  apply push_mono_down; [intros a b H; apply (scores_monotone b a H)|exact Hw|].
  apply push_mono_up; [intros a b H; apply (scores_monotone a b H)|exact Ht|].
  apply push_mono_up; [intros a b H; apply (scores_monotone a b H)|exact Hp|].
  constructor.
Qed.

Lemma score_shape sd :
  Forall (fun x => 5 <= x <= 95 /\ (75 <= x \/ x <= 65)) (risk_scores sd).
Proof.
  destruct_channels sd; simpl; repeat apply Forall_cons; try apply Forall_nil;
    unfold pressure_score, temperature_score, wall_thickness_score, corrosion_rate_score,
      vibration_score, flow_rate_score;
    repeat match goal with |- context [if ?b then _ else _] => destruct b end; lia.
Qed.

Lemma fold_left_add_acc (l : list Z) (a : Z) :
  fold_left Z.add l a = a + fold_left Z.add l 0.
Proof.
  revert a. induction l as [|y l IH]; intros a; simpl; [lia|].
  rewrite (IH (a + y)), (IH y). lia.
Qed.

Lemma sum_list_cons (x : Z) (l : list Z) : sum_list (x :: l) = x + sum_list l.
Proof. unfold sum_list. simpl. apply fold_left_add_acc. Qed.

Lemma sum_list_mono (l1 l2 : list Z) : Forall2 Z.le l1 l2 -> sum_list l1 <= sum_list l2.
Proof.
  induction 1 as [|x y l1 l2 Hxy _ IH]; [reflexivity|]. rewrite !sum_list_cons. lia.
Qed.

Lemma count75_mono (l1 l2 : list Z) :
  Forall2 Z.le l1 l2 ->
  (List.length (filter (fun s => (75 <=? s)%Z) l1) <= List.length (filter (fun s => (75 <=? s)%Z) l2))%nat.
Proof.
  induction 1 as [|x y l1 l2 Hxy _ IH]; simpl; [lia|].
  destruct (Z.leb_spec 75 x), (Z.leb_spec 75 y); simpl; lia.
Qed.

Lemma sum_list_shape (l : list Z) :
  Forall (fun x => 5 <= x <= 95 /\ (75 <= x \/ x <= 65)) l ->
  5 * Z.of_nat (List.length l) <= sum_list l <=
    30 * Z.of_nat (List.length (filter (fun s => (75 <=? s)%Z) l)) + 65 * Z.of_nat (List.length l).
Proof.
  induction 1 as [|x l Hx _ IH]; [unfold sum_list; simpl; lia|].
  rewrite sum_list_cons. cbn [List.length filter].
  destruct (Z.leb_spec 75 x); cbn [List.length]; rewrite ?Nat2Z.inj_succ; lia.
Qed.

Lemma count75_le_length (l : list Z) :
  (List.length (filter (fun s => (75 <=? s)%Z) l) <= List.length l)%nat.
Proof. induction l as [|x l IH]; simpl; [lia|]. destruct (75 <=? x); simpl; lia. Qed.

(** X28: for two readings with the same channels present, the one with each
    value at least as high (the wall thickness at most as high) never gets a
    lower probability of failure, although [calculate_pof] averages the
    scores and multiplies by 1.1 or 1.2 by the count of critical scores. *)
Theorem calculate_pof_monotone (sd1 sd2 : sensor_data) :
  reading_le sd1 sd2 -> calculate_pof sd1 <= calculate_pof sd2.
Proof.
  intros H. unfold calculate_pof. cbv zeta.
  pose proof (risk_scores_mono sd1 sd2 H) as HF.
  pose proof (score_shape sd1) as Hs1. pose proof (score_shape sd2) as Hs2.
  pose proof (Forall2_length HF) as Hlen.
  destruct (risk_scores sd1) as [|x1 t1]; destruct (risk_scores sd2) as [|x2 t2];
    simpl in Hlen; try discriminate; try lia.
  set (L1 := x1 :: t1) in *. set (L2 := x2 :: t2) in *.
  assert (Hn : (1 <= List.length L1)%nat) by (simpl; lia).
  pose proof (sum_list_mono L1 L2 HF) as HS.
  pose proof (count75_mono L1 L2 HF) as HC.
  pose proof (sum_list_shape L1 Hs1) as HB1. pose proof (sum_list_shape L2 Hs2) as HB2.
  pose proof (count75_le_length L2) as HC2.
  change (List.length (x2 :: t2)) with (List.length L2).
  change (List.length (x1 :: t1)) with (List.length L1).
  clear Hlen. pose proof (Forall2_length HF) as Hlen.
  rewrite <- Hlen in *.
  set (n := List.length L1) in *.
  set (C1 := List.length (filter (fun s => (75 <=? s)%Z) L1)) in *.
  set (C2 := List.length (filter (fun s => (75 <=? s)%Z) L2)) in *.
  set (S1 := sum_list L1) in *. set (S2 := sum_list L2) in *.
  assert (Hnq : (0 < inject_Z (Z.of_nat n))%Q)
    by (change 0%Q with (inject_Z 0); rewrite <- Zlt_Qlt; lia).
  assert (Hdiv : forall (s : Z) (k : Q), (inject_Z s <= k * inject_Z (Z.of_nat n))%Q ->
                   (inject_Z s / inject_Z (Z.of_nat n) <= k)%Q)
    by (intros; apply Qle_shift_div_r; assumption).
  assert (Hdiv' : forall (s : Z) (k : Q), (k * inject_Z (Z.of_nat n) <= inject_Z s)%Q ->
                   (k <= inject_Z s / inject_Z (Z.of_nat n))%Q)
    by (intros; apply Qle_shift_div_l; assumption).
  set (a1 := (inject_Z S1 / inject_Z (Z.of_nat n))%Q).
  set (a2 := (inject_Z S2 / inject_Z (Z.of_nat n))%Q).
  assert (H0 : (0 <= a1)%Q).
  { apply Hdiv'. rewrite Qmult_0_l. change 0%Q with (inject_Z 0). rewrite <- Zle_Qle. lia. }
  assert (H95 : (a2 <= 95)%Q).
  { apply Hdiv. change 95%Q with (inject_Z 95). rewrite <- inject_Z_mult, <- Zle_Qle. lia. }
  assert (H12 : (a1 <= a2)%Q).
  { apply Hdiv. unfold a2. rewrite Qmult_comm, Qmult_div_r; [rewrite <- Zle_Qle; lia|].
    intros E. rewrite E in Hnq. discriminate. }
  assert (H80 : (C1 <= 1)%nat -> (2 <= n)%nat -> (a1 <= 80)%Q).
  { intros Hc1 Hn2. apply Hdiv. change 80%Q with (inject_Z 80).
    rewrite <- inject_Z_mult, <- Zle_Qle. lia. }
  clearbody a1 a2.
  assert (B80 : (b64 80 == 80)%Q) by (vm_compute; reflexivity).
  assert (B95 : (b64 95 == 95)%Q) by (vm_compute; reflexivity).
  assert (K : (1 <= b64 (11 # 10) <= b64 (12 # 10))%Q) by (split; vm_compute; discriminate).
  pose proof (b64_mono _ _ H12) as F12.
  pose proof (b64_nonneg a1 H0) as F0.
  assert (F95 : (b64 a1 <= 95)%Q) by (rewrite <- B95; apply b64_mono; lra).
  assert (Up : forall a k, (0 <= b64 a)%Q -> (1 <= k)%Q -> (b64 a <= b64 (b64 a * k))%Q).
  { intros a k Ha Hk. rewrite <- (b64_idem a) at 1. apply b64_mono. nra. }
  assert (Mul : forall x y k, (0 <= x)%Q -> (x <= y)%Q -> (0 <= k)%Q ->
                  (b64 (x * k) <= b64 (y * k))%Q).
  { intros x y k Hx Hxy Hk. apply b64_mono. nra. }
  pose proof (Up a1 (b64 (11 # 10)) F0 ltac:(lra)) as F1.
  pose proof (Up a1 (b64 (12 # 10)) F0 ltac:(lra)) as F2.
  pose proof (Up a2 (b64 (11 # 10)) ltac:(lra) ltac:(lra)) as F3.
  pose proof (Up a2 (b64 (12 # 10)) ltac:(lra) ltac:(lra)) as F4.
  pose proof (Mul (b64 a1) (b64 a2) (b64 (11 # 10)) F0 F12 ltac:(lra)) as F5.
  pose proof (Mul (b64 a1) (b64 a2) (b64 (12 # 10)) F0 F12 ltac:(lra)) as F6.
  assert (F7 : (b64 (b64 a2 * b64 (11 # 10)) <= b64 (b64 a2 * b64 (12 # 10)))%Q).
  { apply b64_mono. assert (0 <= b64 a2)%Q by lra. nra. }
  destruct (Nat.leb_spec 3 C1), (Nat.leb_spec 3 C2), (Nat.leb_spec 2 C1),
    (Nat.leb_spec 2 C2); try lia; apply round2_mono;
    try (assert (b64 a1 <= 80)%Q by (rewrite <- B80; apply b64_mono, H80; lia));
    repeat apply Q.min_glb;
    first [ lra
          | eapply Qle_trans; [apply Q.le_min_l|lra]
          | eapply Qle_trans; [apply Q.le_min_r|lra] ].
Qed.

(** ** Witnesses of the last properties *)

Lemma global_instances_single_worker_witness :
  let g := fst (Global.start_scheduler Global.init) in
  Global.reachable g /\
  (forall s, Global.current g = Some s -> List.length (Scheduler.workers s) = 1%nat).
Proof.
  intros g.
  assert (H : Global.reachable g)
    by (apply (Global.greach_step Global.init); [apply Global.greach_init|
                                                 apply Global.gstep_start]).
  split; [exact H|]. intros s Hs.
  exact (proj1 (proj2 (proj1 (global_instances_single_worker g H) s Hs))).
Defined.

Lemma stopped_worker_finishes_witness :
  let s := fst (Scheduler.stop (fst (Scheduler.start Scheduler.init))) in
  Scheduler.running s = false /\ (0 < List.length (Scheduler.workers s))%nat /\
  nth_error (Scheduler.workers
    (Scheduler.worker_step 0 (Scheduler.worker_step 0 (Scheduler.worker_step 0 s)))) 0
    = Some Scheduler.WDone.
Proof.
  intros s.
  assert (H1 : Scheduler.running s = false) by reflexivity.
  assert (H2 : (0 < List.length (Scheduler.workers s))%nat) by (simpl; lia).
  split; [exact H1|split; [exact H2|]].
  exact (stopped_worker_finishes s 0 H1 H2).
Defined.

Lemma calculate_confidence_more_channels_witness :
  channels_incl wall_zero reading_critical = true /\
  calculate_confidence wall_zero 0 <= calculate_confidence reading_critical 0.
Proof.
  assert (H : channels_incl wall_zero reading_critical = true) by reflexivity.
  split; [exact H|].
  exact (calculate_confidence_more_channels wall_zero reading_critical 0 H).
Defined.

Lemma calculate_pof_monotone_witness :
  let safe := mk_sensor_data (Some 9%Q) (Some 70%Q) (Some 11%Q) (Some (5 # 100))
                             (Some 2%Q) (Some 40%Q) None in
  reading_le safe reading_critical /\
  calculate_pof safe <= calculate_pof reading_critical.
Proof.
  intros safe.
  assert (H : reading_le safe reading_critical)
    by (repeat split; vm_compute; discriminate).
  split; [exact H|].
  exact (calculate_pof_monotone safe reading_critical H).
Defined.

Lemma mode_reading_in_range_witness :
  (0 <= d_value (draws_half "pressure") <= 1)%Q /\
  generate_reading "warning" "pressure" (draws_half "pressure") = Some (1550 # 100) /\
  exists lo hi, warning_value "pressure" 0 = Some lo /\ warning_value "pressure" 1 = Some hi /\
                (lo <= 1550 # 100 <= hi)%Q.
Proof.
  assert (Hd : (0 <= d_value (draws_half "pressure") <= 1)%Q)
    by (split; vm_compute; discriminate).
  assert (Hg : generate_reading "warning" "pressure" (draws_half "pressure")
               = Some (1550 # 100)) by (vm_compute; reflexivity).
  split; [exact Hd|split; [exact Hg|]].
  exact (proj1 (mode_reading_in_range "pressure" (draws_half "pressure") (1550 # 100) Hd) Hg).
Defined.
